(** * py-feedr: the feed monitor and the tweet composer

    A shallow embedding of [feedr/monitor.py] (class [MonitorFeedUpdate])
    and [feedr/tweetupdate.py] (class [TweetUpdate]), with the properties of
    the duplicate detection, the per-entry reconciliation, the message
    composition and the publish fallback chain.

    Python values are modelled as follows.
    - [str] is a list of Unicode code points ([pystr]); [len] is [length].
    - [bytes] is a list of integers in [0, 256).
    - An exception is a value of [exn]; a method that can raise returns
      [result]; a method that also touches the database, the platform or
      standard output is a state transformer over [World]. *)

From Stdlib Require Import String Ascii.
From Stdlib Require Import ZArith List Bool Lia QArith.
Import ListNotations.

Local Open Scope Z_scope.

(** ** Python strings *)

Definition pystr := list Z.

(** An ASCII literal as a Python string. *)
Definition str (s : String.string) : pystr :=
  map (fun c => Z.of_N (Ascii.N_of_ascii c)) (String.list_ascii_of_string s).
Arguments str s%_string.

(** [sep.join(parts)] *)
Fixpoint join (sep : pystr) (parts : list pystr) : pystr :=
  match parts with
  | [] => []
  | [p] => p
  | p :: rest => p ++ sep ++ join sep rest
  end.

Definition NL : pystr := [10].

(** [s[:k]] for any integer [k]: a negative bound counts from the end and
    is clipped at the start of the string. *)
Definition slice_to (s : pystr) (k : Z) : pystr :=
  if k <? 0
  then firstn (Z.to_nat (Z.max (Z.of_nat (length s) + k) 0)) s
  else firstn (Z.to_nat k) s.

Definition len (s : pystr) : Z := Z.of_nat (length s).

Fixpoint str_eqb (s t : pystr) : bool :=
  match s, t with
  | [], [] => true
  | c :: s', d :: t' => (c =? d) && str_eqb s' t'
  | _, _ => false
  end.

Fixpoint startswith (s p : pystr) : bool :=
  match p, s with
  | [], _ => true
  | d :: p', c :: s' => (c =? d) && startswith s' p'
  | _ :: _, [] => false
  end.

(** [p in s] for strings: [p] occurs in [s] as a contiguous run. *)
Fixpoint contains (s p : pystr) : bool :=
  startswith s p ||
  match s with
  | [] => false
  | _ :: s' => contains s' p
  end.

(** ** [str.encode('utf-8')] *)

Inductive exn : Type :=
| TwitterHTTPError
| URLError
| AttributeError
| TypeError
| ValueError
| KeyError
| IndexError
| UnicodeEncodeError.

Inductive result (A : Type) : Type :=
| Ok (a : A)
| Raise (e : exn).
Arguments Ok {A} a.
Arguments Raise {A} e.

(** The bytes of one code point; lone surrogates cannot be encoded, and no
    Python string holds a value outside [0, 0x10FFFF]. *)
Definition utf8_char (c : Z) : option (list Z) :=
  if c <? 0 then None
  else if c <? 128 then Some [c]
  else if c <? 2048 then Some [192 + c / 64; 128 + c mod 64]
  else if c <? 65536 then
    if (55296 <=? c) && (c <=? 57343) then None
    else Some [224 + c / 4096; 128 + (c / 64) mod 64; 128 + c mod 64]
  else if c <? 1114112 then
    Some [240 + c / 262144; 128 + (c / 4096) mod 64;
          128 + (c / 64) mod 64; 128 + c mod 64]
  else None.

Fixpoint utf8 (s : pystr) : option (list Z) :=
  match s with
  | [] => Some []
  | c :: s' =>
      match utf8_char c, utf8 s' with
      | Some bs, Some rest => Some (bs ++ rest)
      | _, _ => None
      end
  end.

Definition encode_utf8 (s : pystr) : result (list Z) :=
  match utf8 s with
  | Some bs => Ok bs
  | None => Raise UnicodeEncodeError
  end.

(** ** [hashlib.sha256] (FIPS 180-4) on 32-bit words held in [Z] *)

Module SHA256.

Definition mask32 : Z := 4294967295.
Definition w32 (x : Z) : Z := Z.land x mask32.
Definition add32 (x y : Z) : Z := w32 (x + y).
Definition rotr (n x : Z) : Z :=
  Z.lor (Z.shiftr x n) (w32 (Z.shiftl x (32 - n))).
Definition shr (n x : Z) : Z := Z.shiftr x n.
Definition not32 (x : Z) : Z := Z.lxor x mask32.

Definition Ch (x y z : Z) : Z := Z.lxor (Z.land x y) (Z.land (not32 x) z).
Definition Maj (x y z : Z) : Z :=
  Z.lxor (Z.lxor (Z.land x y) (Z.land x z)) (Z.land y z).
Definition Sigma0 (x : Z) : Z := Z.lxor (Z.lxor (rotr 2 x) (rotr 13 x)) (rotr 22 x).
Definition Sigma1 (x : Z) : Z := Z.lxor (Z.lxor (rotr 6 x) (rotr 11 x)) (rotr 25 x).
Definition sigma0 (x : Z) : Z := Z.lxor (Z.lxor (rotr 7 x) (rotr 18 x)) (shr 3 x).
Definition sigma1 (x : Z) : Z := Z.lxor (Z.lxor (rotr 17 x) (rotr 19 x)) (shr 10 x).

Definition K : list Z :=
  [ 1116352408; 1899447441; 3049323471; 3921009573; 961987163; 1508970993;
    2453635748; 2870763221; 3624381080; 310598401; 607225278; 1426881987;
    1925078388; 2162078206; 2614888103; 3248222580; 3835390401; 4022224774;
    264347078; 604807628; 770255983; 1249150122; 1555081692; 1996064986;
    2554220882; 2821834349; 2952996808; 3210313671; 3336571891; 3584528711;
    113926993; 338241895; 666307205; 773529912; 1294757372; 1396182291;
    1695183700; 1986661051; 2177026350; 2456956037; 2730485921; 2820302411;
    3259730800; 3345764771; 3516065817; 3600352804; 4094571909; 275423344;
    430227734; 506948616; 659060556; 883997877; 958139571; 1322822218;
    1537002063; 1747873779; 1955562222; 2024104815; 2227730452; 2361852424;
    2428436474; 2756734187; 3204031479; 3329325298 ].

Definition H0 : list Z :=
  [ 1779033703; 3144134277; 1013904242; 2773480762;
    1359893119; 2600822924; 528734635; 1541459225 ].

(** Padding: a 1 bit, zeros up to 56 mod 64 bytes, the bit length on 8 bytes. *)
Definition be_bytes (n : nat) (x : Z) : list Z :=
  map (fun i => Z.land (Z.shiftr x (8 * Z.of_nat i)) 255) (rev (seq 0 n)).

Definition pad (msg : list Z) : list Z :=
  let l := Z.of_nat (length msg) in
  let zeros := Z.to_nat ((55 - l) mod 64) in
  msg ++ [128] ++ repeat 0 zeros ++ be_bytes 8 (8 * l).

Fixpoint words (bs : list Z) : list Z :=
  match bs with
  | b3 :: b2 :: b1 :: b0 :: rest =>
      (((b3 * 256 + b2) * 256 + b1) * 256 + b0) :: words rest
  | _ => []
  end.

Fixpoint chunks (fuel : nat) (ws : list Z) : list (list Z) :=
  match fuel, ws with
  | S f, _ :: _ => firstn 16 ws :: chunks f (skipn 16 ws)
  | _, _ => []
  end.

Definition at_ (ws : list Z) (i : nat) : Z := nth i ws 0.

(** The message schedule: [W] grows from 16 to 64 words. *)
Fixpoint schedule (n : nat) (W : list Z) : list Z :=
  match n with
  | O => W
  | S n' =>
      let t := length W in
      let w := add32 (add32 (sigma1 (at_ W (t - 2))) (at_ W (t - 7)))
                     (add32 (sigma0 (at_ W (t - 15))) (at_ W (t - 16))) in
      schedule n' (W ++ [w])
  end.

Definition round (st : list Z) (kw : Z * Z) : list Z :=
  match st with
  | [a; b; c; d; e; f; g; h] =>
      let T1 := add32 (add32 (add32 h (Sigma1 e)) (add32 (Ch e f g) (fst kw))) (snd kw) in
      let T2 := add32 (Sigma0 a) (Maj a b c) in
      [add32 T1 T2; a; b; c; add32 d T1; e; f; g]
  | _ => st
  end.

Definition compress (H : list Z) (block : list Z) : list Z :=
  let W := schedule 48 block in
  let st := fold_left round (combine K W) H in
  map (fun p => add32 (fst p) (snd p)) (combine H st).

Definition digest (msg : list Z) : list Z :=
  let ws := words (pad msg) in
  let H := fold_left compress (chunks (length ws) ws) H0 in
  flat_map (be_bytes 4) H.

Definition hex_digit (d : Z) : Z := if d <? 10 then 48 + d else 87 + d.

Definition hex (bs : list Z) : pystr :=
  flat_map (fun b => [hex_digit (b / 16); hex_digit (b mod 16)]) bs.

Definition hexdigest (msg : list Z) : pystr := hex (digest msg).

End SHA256.

(** ** Feed entries (the fields of a feedparser entry that the code reads)

    [FeedEntry] is an item whose ['title'] and ['link'] keys are present,
    which is what line 66 of [monitor] establishes before anything else
    reads the item; [FeedItem], further down, is the item as the parser
    hands it over, where both may be missing. *)

Record FeedEntry : Type := {
  title : pystr;
  link : pystr;
  published : option pystr;
  updated : option pystr;
  summary : option pystr;
  content : option pystr;      (* feed_entry.content[0].value *)
  description : option pystr
}.

(** [MonitorFeedUpdate.get_latest_entry_date] *)
Definition get_latest_entry_date (e : FeedEntry) : pystr :=
  match published e with
  | Some d => d
  | None =>
      match updated e with
      | Some d => d
      | None => []
      end
  end.

(** [MonitorFeedUpdate.rss_latest_sha256] *)
Definition rss_latest_sha256 (e : FeedEntry) : result pystr :=
  match encode_utf8 (get_latest_entry_date e ++ title e ++ link e) with
  | Ok bs => Ok (SHA256.hexdigest bs)
  | Raise x => Raise x
  end.

(** An item as the feed parser hands it over: any key may be missing. *)
Record FeedItem : Type := {
  item_title : option pystr;
  item_link : option pystr;
  item_published : option pystr;
  item_updated : option pystr;
  item_summary : option pystr;
  item_content : option pystr;
  item_description : option pystr
}.

(** [latest_entry['title']] and [latest_entry['link']] (lines 143-144), read
    in that order. *)
Definition getitem_title_link (item : FeedItem) : result FeedEntry :=
  match item_title item with
  | None => Raise KeyError
  | Some t =>
      match item_link item with
      | None => Raise KeyError
      | Some l =>
          Ok {| title := t; link := l;
                published := item_published item; updated := item_updated item;
                summary := item_summary item; content := item_content item;
                description := item_description item |}
      end
  end.

(** ** [difflib.SequenceMatcher(None, a, b)]

    The matcher is built with [isjunk = None] and the default
    [autojunk = True]: no element is junk, and when [b] has 200 elements or
    more, those that occur more than [len(b) // 100 + 1] times are purged
    from the index [b2j]. *)

Module Difflib.

Definition Match : Type := (Z * Z * Z)%type.   (* (i, j, size) *)

Definition getitem (s : pystr) (i : Z) : Z := nth (Z.to_nat i) s 0.

(** [range(lo, hi)] *)
Definition range (lo hi : Z) : list Z :=
  map (fun n => lo + Z.of_nat n) (seq 0 (Z.to_nat (hi - lo))).

(** [d.get(key, 0)] on a dict held as an association list *)
Fixpoint get0 (d : list (Z * Z)) (key : Z) : Z :=
  match d with
  | [] => 0
  | (k, v) :: d' => if k =? key then v else get0 d' key
  end.

Section Matcher.

Variables a b : pystr.

Fixpoint indices (x : Z) (s : pystr) (j : Z) : list Z :=
  match s with
  | [] => []
  | c :: s' => if c =? x then j :: indices x s' (j + 1) else indices x s' (j + 1)
  end.

Definition occurrences (x : Z) : Z := Z.of_nat (length (indices x b 0)).

(** [__chain_b]: the popular elements of [b]. *)
Definition popular (x : Z) : bool :=
  (200 <=? len b) && (len b / 100 + 1 <? occurrences x).

(** [b2j.get(x, [])] *)
Definition b2j (x : Z) : list Z :=
  if popular x then [] else indices x b 0.

(** The inner loop of [find_longest_match]: [for j in b2j.get(a[i], nothing)]. *)
Fixpoint scan_row (i blo bhi : Z) (j2len : list (Z * Z)) (js : list Z)
    (newj2len : list (Z * Z)) (best : Match) : list (Z * Z) * Match :=
  match js with
  | [] => (newj2len, best)
  | j :: js' =>
      if j <? blo then scan_row i blo bhi j2len js' newj2len best
      else if bhi <=? j then (newj2len, best)
      else
        let k := get0 j2len (j - 1) + 1 in
        let '(_, _, bestsize) := best in
        scan_row i blo bhi j2len js' ((j, k) :: newj2len)
          (if bestsize <? k then (i - k + 1, j - k + 1, k) else best)
  end.

(** The outer loop: [for i in range(alo, ahi)]. *)
Fixpoint scan_rows (rows : list Z) (blo bhi : Z) (j2len : list (Z * Z))
    (best : Match) : Match :=
  match rows with
  | [] => best
  | i :: rows' =>
      let '(newj2len, best') :=
        scan_row i blo bhi j2len (b2j (getitem a i)) [] best in
      scan_rows rows' blo bhi newj2len best'
  end.

(** [while besti > alo and bestj > blo and a[besti-1] == b[bestj-1]]; the
    loop runs at most [besti - alo] times, which is the fuel it is given. *)
Fixpoint extend_left (n : nat) (alo blo : Z) (m : Match) : Match :=
  match n with
  | O => m
  | S n' =>
      let '(besti, bestj, bestsize) := m in
      if (alo <? besti) && (blo <? bestj)
         && (getitem a (besti - 1) =? getitem b (bestj - 1))
      then extend_left n' alo blo (besti - 1, bestj - 1, bestsize + 1)
      else m
  end.

(** [while besti+bestsize < ahi and bestj+bestsize < bhi and
    a[besti+bestsize] == b[bestj+bestsize]]; at most
    [ahi - (besti + bestsize)] iterations. *)
Fixpoint extend_right (n : nat) (ahi bhi : Z) (m : Match) : Match :=
  match n with
  | O => m
  | S n' =>
      let '(besti, bestj, bestsize) := m in
      if (besti + bestsize <? ahi) && (bestj + bestsize <? bhi)
         && (getitem a (besti + bestsize) =? getitem b (bestj + bestsize))
      then extend_right n' ahi bhi (besti, bestj, bestsize + 1)
      else m
  end.

(** [find_longest_match(alo, ahi, blo, bhi)]. The two further loops of the
    source extend the match over junk elements only; the junk set is empty
    here, so they never run. *)
Definition find_longest_match (alo ahi blo bhi : Z) : Match :=
  let m0 := scan_rows (range alo ahi) blo bhi [] (alo, blo, 0) in
  let m1 := extend_left (Z.to_nat (fst (fst m0) - alo)) alo blo m0 in
  let '(i1, _, k1) := m1 in
  extend_right (Z.to_nat (ahi - (i1 + k1))) ahi bhi m1.

(** The work-list loop of [get_matching_blocks]: [queue.pop()] takes the
    last element pushed, so the queue is a stack whose top is the head. *)
Fixpoint matching_loop (fuel : nat) (queue : list (Z * Z * Z * Z))
    (matching_blocks : list Match) : list Match :=
  match fuel, queue with
  | S fuel', (alo, ahi, blo, bhi) :: queue' =>
      let '(i, j, k) := find_longest_match alo ahi blo bhi in
      if k =? 0 then matching_loop fuel' queue' matching_blocks
      else
        let q1 := if (alo <? i) && (blo <? j)
                  then (alo, i, blo, j) :: queue' else queue' in
        let q2 := if (i + k <? ahi) && (j + k <? bhi)
                  then (i + k, ahi, j + k, bhi) :: q1 else q1 in
        matching_loop fuel' q2 (matching_blocks ++ [(i, j, k)])
  | _, _ => matching_blocks
  end.

Definition match_leb (x y : Match) : bool :=
  let '(i1, j1, k1) := x in
  let '(i2, j2, k2) := y in
  (i1 <? i2) || ((i1 =? i2) && ((j1 <? j2) || ((j1 =? j2) && (k1 <=? k2)))).

Fixpoint insert_sorted (x : Match) (l : list Match) : list Match :=
  match l with
  | [] => [x]
  | y :: l' => if match_leb x y then x :: l else y :: insert_sorted x l'
  end.

(** [matching_blocks.sort()] *)
Definition sort (l : list Match) : list Match :=
  fold_right insert_sorted [] l.

(** The loop that merges adjacent blocks. *)
Fixpoint collapse (cur : Match) (l : list Match) (non_adjacent : list Match)
    : list Match :=
  let '(i1, j1, k1) := cur in
  match l with
  | [] => if k1 =? 0 then non_adjacent else non_adjacent ++ [cur]
  | (i2, j2, k2) :: l' =>
      if (i1 + k1 =? i2) && (j1 + k1 =? j2)
      then collapse (i1, j1, k1 + k2) l' non_adjacent
      else collapse (i2, j2, k2) l'
             (if k1 =? 0 then non_adjacent else non_adjacent ++ [cur])
  end.

(** Every work item with a non-empty match consumes an element of [a] and
    pushes at most two items, so [2 * len(a) + 1] iterations empty the
    queue (lemma [matching_loop_fuel]). *)
Definition get_matching_blocks : list Match :=
  let la := len a in
  let lb := len b in
  let blocks := matching_loop (2 * length a + 1) [(0, la, 0, lb)] [] in
  collapse (0, 0, 0) (sort blocks) [] ++ [(la, lb, 0)].

Definition matches : Z :=
  fold_right (fun (t : Match) acc => snd t + acc) 0 get_matching_blocks.

(** [ratio()]: [2.0 * matches / length], or [1.0] when both are empty. The
    float quotient is kept as an exact rational; comparing it with 0.75
    (exactly representable) gives the same answer as the rounded quotient
    for all lengths below 2^50. *)
Definition ratio : Q :=
  let length := len a + len b in
  if length =? 0 then 1%Q else Qmake (2 * matches) (Z.to_pos length).

End Matcher.

End Difflib.

(** ** The world outside the two classes *)

(** A row of the history table, [(sha256_hash text, date text, title text,
    url text)]. *)
Record HistoryRecord : Type := {
  sha256_hash : pystr;
  date : pystr;
  row_title : pystr;
  url : pystr
}.

Record Tweet : Type := {
  tweet_id : Z;
  status : pystr;
  media : option pystr     (* the URL the attached image was fetched from *)
}.

(** The requests that leave the process, in the order they are made.
    [SendDM] is the request that delivers a direct message; no method of
    [TweetUpdate] makes it (see [send_dm] below). *)
Inductive Call : Type :=
| HomeTimeline (count : Z)
| Destroy (id : Z)
| UrlRetrieve (src : pystr)
| UpdateWithMedia (text : pystr) (src : pystr)
| Update (text : pystr)
| SendDM (user : pystr) (text : pystr).

(** What the process prints; the feed name and the local time that the
    format strings also carry are left out. *)
Inductive Output : Type :=
| OutLength (n : Z)                        (* print(msg_length()) *)
| OutText (s : pystr)                      (* print('\n'.join(...)) *)
| OutCannotTweetMedia
| OutError (e : exn)                       (* 'Error while sending tweet: {}' *)
| OutNewUpdate (hash10 ttl dt : pystr)
| OutEntryUpdated
| OutPrepareDM (user : pystr)
| OutSentDM (user text : pystr).

Record World : Type := {
  table : list HistoryRecord;      (* oldest row first *)
  subscribed : list pystr;
  timeline : list Tweet;           (* most recent tweet first *)
  next_id : Z;
  calls : list Call;
  stdout : list Output
}.

Definition set_table (t : list HistoryRecord) (w : World) : World :=
  {| table := t; subscribed := subscribed w; timeline := timeline w;
     next_id := next_id w; calls := calls w; stdout := stdout w |}.

Definition set_timeline (t : list Tweet) (n : Z) (w : World) : World :=
  {| table := table w; subscribed := subscribed w; timeline := t;
     next_id := n; calls := calls w; stdout := stdout w |}.

Definition log_call (c : Call) (w : World) : World :=
  {| table := table w; subscribed := subscribed w; timeline := timeline w;
     next_id := next_id w; calls := calls w ++ [c]; stdout := stdout w |}.

Definition log_out (o : Output) (w : World) : World :=
  {| table := table w; subscribed := subscribed w; timeline := timeline w;
     next_id := next_id w; calls := calls w; stdout := stdout w ++ [o] |}.

(** ** Computations that read and change the world and may raise *)

Definition M (A : Type) : Type := World -> result A * World.

Definition ret {A} (a : A) : M A := fun w => (Ok a, w).
Definition raise {A} (e : exn) : M A := fun w => (Raise e, w).
Definition bind {A B} (m : M A) (f : A -> M B) : M B :=
  fun w =>
    match m w with
    | (Ok a, w') => f a w'
    | (Raise e, w') => (Raise e, w')
    end.
Definition lift {A} (r : result A) : M A := fun w => (r, w).

Declare Scope py_scope.
Delimit Scope py_scope with py.
Notation "x <- m ;; k" := (bind m (fun x => k))
  (at level 100, m at next level, right associativity) : py_scope.
Notation "m ;; k" := (bind m (fun _ => k))
  (at level 100, right associativity) : py_scope.

Definition print (o : Output) : M unit := fun w => (Ok tt, log_out o w).

(** [try: body except TwitterHTTPError: handler] *)
Definition except_TwitterHTTPError {A} (body handler : M A) : M A :=
  fun w =>
    match body w with
    | (Raise TwitterHTTPError, w') => handler w'
    | r => r
    end.

(** [for x in xs: body(x)] *)
Fixpoint for_each {A} (xs : list A) (body : A -> M unit) : M unit :=
  match xs with
  | [] => ret tt
  | x :: xs' => bind (body x) (fun _ => for_each xs' body)
  end.

(** ** [DatabaseManager] *)

(** Modelled from the spec: [feedr/dbmanager.py] is not among the sources.
    The History Store interface gives [mostRecent], [exists], [insert],
    [deleteMostRecent] and [listSubscribedAccounts] over the four-column
    table. The row that [get_last_table_entry] returns is read by the
    monitor at column 1 for the fingerprint and at column 3 for the title;
    here it is the record itself. *)
Definition get_last_table_entry (w : World) : option HistoryRecord :=
  last (map Some (table w)) None.

(** Modelled from the spec: [exists(fingerprint) -> bool]. *)
Definition check_for_existing_update (unchecked_hash : pystr) : M bool :=
  fun w => (Ok (existsb (fun r => str_eqb (sha256_hash r) unchecked_hash) (table w)), w).

(** Modelled from the spec: [deleteMostRecent()]. *)
Definition del_last_table_entry : M unit :=
  fun w => (Ok tt, set_table (removelast (table w)) w).

(** Modelled from the spec: [insert(record)]. *)
Definition create_latest_rss_entry (update : HistoryRecord) : M unit :=
  fun w => (Ok tt, set_table (table w ++ [update]) w).

(** Modelled from the spec: [listSubscribedAccounts()]. *)
Definition get_feed_subscribed_users : M (list pystr) :=
  fun w => (Ok (subscribed w), w).

(** ** Parsed HTML (what [BeautifulSoup] builds) *)

#[warnings="-register-all"]
Inductive Node : Type :=
| Tag (name : pystr) (attrs : list (pystr * pystr)) (children : list Node)
| NavigableString (s : pystr).

(** [soup.find(name)]: the first tag of that name in document order. *)
Fixpoint find_in (name : pystr) (n : Node) : option (list (pystr * pystr)) :=
  match n with
  | NavigableString _ => None
  | Tag nm attrs children =>
      if str_eqb nm name then Some attrs
      else
        (fix find_first (l : list Node) : option (list (pystr * pystr)) :=
           match l with
           | [] => None
           | c :: l' =>
               match find_in name c with
               | Some t => Some t
               | None => find_first l'
               end
           end) children
  end.

Fixpoint find (name : pystr) (soup : list Node) : option (list (pystr * pystr)) :=
  match soup with
  | [] => None
  | n :: soup' =>
      match find_in name n with
      | Some t => Some t
      | None => find name soup'
      end
  end.

(** [tag[key]] *)
Fixpoint tag_getitem (attrs : list (pystr * pystr)) (key : pystr) : result pystr :=
  match attrs with
  | [] => Raise KeyError
  | (k, v) :: attrs' => if str_eqb k key then Ok v else tag_getitem attrs' key
  end.

(** Python truth of a value that is [None] or a string. *)
Definition truthy (v : option pystr) : bool :=
  match v with
  | Some (_ :: _) => true
  | _ => false
  end.

(** ** The message under composition: an [OrderedDict] *)

Definition OrderedDict : Type := list (pystr * option pystr).

Definition empty_msg : OrderedDict :=
  [ (str "title", None); (str "summary", None);
    (str "url", None); (str "img_url", None) ].

(** [msg[key] = v] for a key that is present keeps the key's position. *)
Fixpoint setitem (msg : OrderedDict) (key : pystr) (v : option pystr) : OrderedDict :=
  match msg with
  | [] => [(key, v)]
  | (k, x) :: msg' =>
      if str_eqb k key then (k, v) :: msg' else (k, x) :: setitem msg' key v
  end.

(** [msg.pop(key)] for a key that is present. *)
Fixpoint pop (msg : OrderedDict) (key : pystr) : OrderedDict :=
  match msg with
  | [] => []
  | (k, x) :: msg' => if str_eqb k key then msg' else (k, x) :: pop msg' key
  end.

Definition keys (msg : OrderedDict) : list pystr := map fst msg.

(** [filter(bool, msg.values())] *)
Fixpoint filter_bool (vs : list (option pystr)) : list pystr :=
  match vs with
  | [] => []
  | Some (c :: s) :: vs' => (c :: s) :: filter_bool vs'
  | _ :: vs' => filter_bool vs'
  end.

(** ['\n'.join(filter(bool, msg.values()))] *)
Definition msg_text (msg : OrderedDict) : pystr :=
  join NL (filter_bool (map snd msg)).

Definition msg_length (msg : OrderedDict) : Z := len (msg_text msg).

Definition ELLIPSIS : pystr := str "...".

(** Lines 83-98 of [tweet_latest_update]: the title, then the summary, cut
    to the limit. *)
Definition compose (msg_limit_length : Z) (feed_entry : FeedEntry) : OrderedDict :=
  let msg := setitem empty_msg (str "title") (Some (title feed_entry)) in
  if 0 <? msg_length msg - msg_limit_length then
    let stripped_title := slice_to (title feed_entry) (msg_limit_length - 3) ++ ELLIPSIS in
    setitem msg (str "title") (Some stripped_title)
  else
    match summary feed_entry with
    | Some smry =>
        let msg := setitem msg (str "summary") (Some smry) in
        if 0 <? msg_length msg - msg_limit_length then
          let summary_length := msg_limit_length - msg_length msg in
          let stripped_summary := slice_to smry (summary_length - 3) ++ ELLIPSIS in
          setitem msg (str "summary") (Some stripped_summary)
        else msg
    | None => msg
    end.

Definition TWEET_URL_LENGTH : Z := 24.
Definition TWEET_IMG_LENGTH : Z := 25.

Section Program.

(** The environment: which requests fail, given the requests made so far,
    and what the HTML parser builds from a string. *)
Variable faults : list Call -> Call -> option exn.
Variable BeautifulSoup : pystr -> list Node.

Local Open Scope py_scope.

Definition request (c : Call) : M unit :=
  fun w =>
    match faults (calls w) c with
    | Some e => (Raise e, log_call c w)
    | None => (Ok tt, log_call c w)
    end.

(** *** class TweetUpdate *)

Definition post (text : pystr) (img : option pystr) : M unit :=
  fun w =>
    (Ok tt,
     set_timeline
       ({| tweet_id := next_id w; status := text; media := img |} :: timeline w)
       (next_id w + 1) w).

Definition statuses_update (text : pystr) : M unit :=
  request (Update text) ;; post text None.

Definition statuses_update_with_media (text src : pystr) : M unit :=
  request (UpdateWithMedia text src) ;; post text (Some src).

Definition statuses_destroy (id : Z) : M unit :=
  request (Destroy id) ;;
  fun w =>
    (Ok tt,
     set_timeline (filter (fun t => negb (tweet_id t =? id)) (timeline w))
                  (next_id w) w).

Definition delete_last_tweet : M unit :=
  request (HomeTimeline 1) ;;
  fun w =>
    match timeline w with
    | [] => (Raise IndexError, w)                (* home_timeline(count=1)[0] *)
    | last_tweet :: _ => statuses_destroy (tweet_id last_tweet) w
    end.

Definition get_entry_img_url (feed_entry : FeedEntry) : result (option pystr) :=
  let entry_html :=
    match content feed_entry with
    | Some c => Some c
    | None =>
        match description feed_entry with
        | Some d => Some d
        | None => None
        end
    end in
  if truthy entry_html then
    match entry_html with
    | Some html =>
        match find (str "img") (BeautifulSoup html) with
        | Some img_tag =>
            match tag_getitem img_tag (str "src") with
            | Ok v => Ok (Some v)
            | Raise e => Raise e
            end
        | None => Ok None
        end
    | None => Ok None
    end
  else Ok None.

(** The limit left for title and summary (lines 61-71). *)
Definition msg_limit (feed_entry : FeedEntry) (img_url : option pystr) : Z :=
  let l := if truthy (Some (link feed_entry)) then 140 - TWEET_URL_LENGTH else 140 in
  if truthy img_url then l - TWEET_IMG_LENGTH else l.

(** Lines 118-128: the plain post and its retry without the summary. *)
Definition tweet_plain (msg : OrderedDict) : M unit :=
  except_TwitterHTTPError
    (statuses_update (msg_text msg))
    (let msg := pop msg (str "summary") in
     print (OutLength (msg_length msg)) ;;
     print (OutText (msg_text msg)) ;;
     statuses_update (msg_text msg)).

Definition tweet_latest_update (feed_entry : FeedEntry) : M unit :=
  img_url <- lift (get_entry_img_url feed_entry) ;;
  let msg := compose (msg_limit feed_entry img_url) feed_entry in
  print (OutLength (msg_length msg)) ;;
  print (OutText (msg_text msg)) ;;
  let msg := setitem msg (str "url") (Some (link feed_entry)) in
  if truthy img_url then
    match img_url with
    | Some src =>
        request (UrlRetrieve src) ;;
        except_TwitterHTTPError
          (* status = '\n'.join(msg): iterating the dict yields its keys *)
          (statuses_update_with_media (join NL (keys msg)) src)
          (print OutCannotTweetMedia ;;
           tweet_plain (setitem msg (str "img_url") img_url))
    | None => tweet_plain msg
    end
  else tweet_plain msg.

(** [tweet_latest_update] called on an item as parsed: [feed_entry['link']]
    (line 65) and [feed_entry['title']] (line 83) raise [KeyError] for a
    missing key, in both cases before anything is printed or requested.
    [monitor] calls the method past line 66 only, where both keys are
    present. *)
Definition tweet_latest_update_item (item : FeedItem) : M unit :=
  feed_entry <- lift (getitem_title_link item) ;;
  tweet_latest_update feed_entry.

(** *** class MonitorFeedUpdate *)

Definition is_duplicate_update (latest_entry : FeedEntry) (w : World) : bool :=
  let cur_title := title latest_entry in
  match get_last_table_entry w with
  | None => false                                        (* empty table *)
  | Some last_table_entry =>
      let prev_title := row_title last_table_entry in
      if contains cur_title prev_title then true
      else if Qle_bool (3 # 4) (Difflib.ratio cur_title prev_title) then true
      else false
  end.

Definition latest_rss_entry_to_db (latest_entry : FeedEntry) : result HistoryRecord :=
  match rss_latest_sha256 latest_entry with
  | Ok h =>
      Ok {| sha256_hash := h;
            date := get_latest_entry_date latest_entry;
            row_title := title latest_entry;
            url := link latest_entry |}
  | Raise e => Raise e
  end.

(** [self.tweetupdate.reset_msg()] (line 90). The class [TweetUpdate] of
    [tweetupdate.py] defines [__init__], [delete_last_tweet],
    [get_entry_img_url] and [tweet_latest_update] and nothing else: looking
    up [reset_msg] raises [AttributeError], and nothing is requested. *)
Definition reset_msg : M unit := raise AttributeError.

(** [self.tweetupdate.send_dm(user, msg)] (line 169): the look-up fails in
    the same way, whoever the user is. *)
Definition send_dm (user text : pystr) : M unit := raise AttributeError.

(** Lines 163-170, with the callee of line 169 as a parameter. *)
Definition fan_out (send : pystr -> pystr -> M unit)
    (feed_subscribed_users : list pystr) (latest_entry : FeedEntry) : M unit :=
  let msg := title latest_entry ++ NL ++ link latest_entry in
  for_each feed_subscribed_users (fun user =>
    print (OutPrepareDM user) ;;
    send user msg ;;
    print (OutSentDM user msg)).

Definition send_dm_to_feed_subscribed_users
    (feed_subscribed_users : list pystr) (latest_entry : FeedEntry) : M unit :=
  fan_out send_dm feed_subscribed_users latest_entry.

(** Line 78 subscripts the bound method [get_last_table_entry] itself (it
    is not called), which raises [TypeError]. *)
Definition subscript_bound_method : M pystr := raise TypeError.

(** Lines 80-86: the format string mixes [{0}], [{1}] with [{}], which
    [str.format] refuses with [ValueError]. *)
Definition print_duplicate (entry_table_hash : pystr) : M unit := raise ValueError.

(** Lines 88-107: [try / except Exception / else / finally]. Every [exn]
    is an [Exception]. *)
Definition publish_and_record
    (feed_subscribed_users : list pystr) (latest_entry : FeedEntry) : M unit :=
  fun w =>
    let '(r, w1) :=
      (tweet_latest_update latest_entry ;;
       reset_msg ;;
       send_dm_to_feed_subscribed_users feed_subscribed_users latest_entry) w in
    let '(r2, w2) :=
      match r with
      | Raise e => print (OutError e) w1
      | Ok _ =>
          (h <- lift (rss_latest_sha256 latest_entry) ;;
           print (OutNewUpdate (slice_to h 10) (title latest_entry)
                    (get_latest_entry_date latest_entry))) w1
      end in
    let '(r3, w3) :=
      (update <- lift (latest_rss_entry_to_db latest_entry) ;;
       create_latest_rss_entry update ;;
       print OutEntryUpdated) w2 in
    match r3, r2 with
    | Raise e, _ => (Raise e, w3)
    | Ok _, Raise e => (Raise e, w3)
    | Ok _, Ok _ => (Ok tt, w3)
    end.

(** The body of the loop of [monitor] (lines 65-107). *)
Definition monitor_entry
    (feed_subscribed_users : list pystr) (entry : FeedEntry) : M unit :=
  unchecked_hash <- lift (rss_latest_sha256 entry) ;;
  check <- check_for_existing_update unchecked_hash ;;
  if (check : bool) then ret tt
  else
    (fun w =>
       if is_duplicate_update entry w then
         (delete_last_tweet ;;
          entry_table_hash <- subscript_bound_method ;;
          del_last_table_entry ;;
          print_duplicate entry_table_hash) w
       else (Ok tt, w)) ;;
    publish_and_record feed_subscribed_users entry.

(** [monitor]: [entries] is [self.feed.entries], newest first. *)
Definition monitor (entries : list FeedEntry) : M unit :=
  feed_subscribed_users <- get_feed_subscribed_users ;;
  for_each (rev entries) (monitor_entry feed_subscribed_users).

(** The loop body on an item as parsed. Line 66 evaluates
    [get_latest_entry_date() + latest_entry['title'] + latest_entry['link']]
    before anything else: a missing key raises [KeyError] there, outside the
    [try] statement, before the text is encoded. *)
Definition monitor_item
    (feed_subscribed_users : list pystr) (item : FeedItem) : M unit :=
  entry <- lift (getitem_title_link item) ;;
  monitor_entry feed_subscribed_users entry.

(** [monitor] on the items as parsed; [monitor] above is the same loop on
    items that all have a title and a link. *)
Definition monitor_feed (items : list FeedItem) : M unit :=
  feed_subscribed_users <- get_feed_subscribed_users ;;
  for_each (rev items) (monitor_item feed_subscribed_users).

End Program.

(** * Vocabulary of the statements *)

(** A value of a byte string. *)
Definition is_byte (b : Z) : Prop := 0 <= b < 256.

(** The date of an entry, as the specification words it: [published], or
    else [updated], or else the empty string. *)
Inductive date_of (e : FeedEntry) : pystr -> Prop :=
| date_published d : published e = Some d -> date_of e d
| date_updated d : published e = None -> updated e = Some d -> date_of e d
| date_absent : published e = None -> updated e = None -> date_of e [].

(** Exactly one of date, title and link differs between the two triples. *)
Definition one_field_changed (d1 t1 l1 d2 t2 l2 : pystr) : Prop :=
  (d1 <> d2 /\ t1 = t2 /\ l1 = l2)
  \/ (d1 = d2 /\ t1 <> t2 /\ l1 = l2)
  \/ (d1 = d2 /\ t1 = t2 /\ l1 <> l2).

(** The text that [rss_latest_sha256] encodes and hashes. *)
Definition hashed_text (e : FeedEntry) : pystr :=
  get_latest_entry_date e ++ title e ++ link e.

(** The fingerprint of an entry whose text can be encoded. *)
Definition fingerprint (e : FeedEntry) : pystr :=
  match rss_latest_sha256 e with
  | Ok h => h
  | Raise _ => []
  end.

(** The row that [latest_rss_entry_to_db] builds for an entry. *)
Definition row_of (e : FeedEntry) : HistoryRecord :=
  {| sha256_hash := fingerprint e; date := get_latest_entry_date e;
     row_title := title e; url := link e |}.

(** The Ratcliff/Obershelp ratio, as the claim words it (gestalt pattern
    matching): the matching characters of two strings are those of their
    longest common substring plus, recursively, those of the parts to its
    left and those of the parts to its right; the ratio is twice their
    number over the sum of the two lengths. No character is filtered. *)
Module RatcliffObershelp.

Fixpoint common_prefix (s t : pystr) : nat :=
  match s, t with
  | x :: s', y :: t' => if x =? y then S (common_prefix s' t') else O
  | _, _ => O
  end.

(** The common run that starts [s], the suffix of [a] at [i], at each
    position [j] of [b]; [best] is the longest run met so far. *)
Fixpoint scan_b (s : pystr) (i j : nat) (tb : pystr) (best : nat * nat * nat)
    : nat * nat * nat :=
  match tb with
  | [] => best
  | _ :: tb' =>
      let k := common_prefix s tb in
      scan_b s i (S j) tb' (if Nat.ltb (snd best) k then (i, j, k) else best)
  end.

Fixpoint scan_a (ta : pystr) (i : nat) (b : pystr) (best : nat * nat * nat)
    : nat * nat * nat :=
  match ta with
  | [] => best
  | _ :: ta' => scan_a ta' (S i) b (scan_b ta i 0%nat b best)
  end.

(** [(i, j, k)]: the longest common substring has [k] characters, from
    position [i] of [a] and position [j] of [b]; among the longest, the
    first one in [a], then in [b]. *)
Definition longest_common_substring (a b : pystr) : nat * nat * nat :=
  scan_a a 0%nat b (0, 0, 0)%nat.

(** The number of matching characters. Each call works on a shorter [a],
    so [length a + 1] calls deep is enough. *)
Fixpoint matching (fuel : nat) (a b : pystr) : nat :=
  match fuel with
  | O => O
  | S fuel' =>
      let '(i, j, k) := longest_common_substring a b in
      match k with
      | O => O
      | S _ =>
          (matching fuel' (firstn i a) (firstn j b) + k
           + matching fuel' (skipn (i + k) a) (skipn (j + k) b))%nat
      end
  end.

Definition matches (a b : pystr) : Z :=
  Z.of_nat (matching (S (length a)) a b).

Definition ratio (a b : pystr) : Q :=
  let length := len a + len b in
  if length =? 0 then 1%Q else Qmake (2 * matches a b) (Z.to_pos length).

End RatcliffObershelp.


(** [(i, j, k)] is a run of [k] characters that [a] has from position [i]
    and [b] from position [j], inside both strings. *)
Definition common_run (a b : pystr) (m : Difflib.Match) : Prop :=
  let '(i, j, k) := m in
  0 <= k /\ 0 <= i /\ i + k <= len a /\ 0 <= j /\ j + k <= len b
  /\ forall d, 0 <= d < k -> Difflib.getitem a (i + d) = Difflib.getitem b (j + d).

(** Every entry [(j, k)] of a row of [j2len] stands for a run of [k]
    characters that ends at [a[i]] and [b[j]]. *)
Definition runs_ending (a b : pystr) (i : Z) (d : list (Z * Z)) : Prop :=
  Forall (fun p => 1 <= snd p
                   /\ common_run a b (i - snd p + 1, fst p - snd p + 1, snd p)) d.

(** A work item of the matcher: a window of [a] and a window of [b]. *)
Definition valid_item (a b : pystr) (q : Z * Z * Z * Z) : Prop :=
  let '(alo, ahi, blo, bhi) := q in
  0 <= alo /\ alo <= ahi /\ ahi <= len a /\ 0 <= blo /\ blo <= bhi /\ bhi <= len b.





(** A tag called [name] occurs in the tree rooted at a node. *)
Inductive has_tag (name : pystr) : Node -> Prop :=
| has_tag_here attrs children : has_tag name (Tag name attrs children)
| has_tag_below nm attrs children c :
    In c children -> has_tag name c -> has_tag name (Tag nm attrs children).

(** The tag has an attribute called [key]. *)
Definition has_key (key : pystr) (attrs : list (pystr * pystr)) : Prop :=
  exists v, In (key, v) attrs.

(** The HTML body that [get_entry_img_url] reads: [content], else
    [description]. *)
Definition entry_html (e : FeedEntry) : option pystr :=
  match content e with
  | Some c => Some c
  | None => description e
  end.

(** The fingerprint [h] is in the history table. *)
Definition stored (h : pystr) (w : World) : Prop :=
  exists r, In r (table w) /\ sha256_hash r = h.

(** A computation that leaves the history table alone. *)
Definition keeps_table {A} (m : M A) : Prop :=
  forall w, table (snd (m w)) = table w.

(** The body of the [try] statement of [monitor]. *)
Definition try_body (faults : list Call -> Call -> option exn)
    (BeautifulSoup : pystr -> list Node)
    (users : list pystr) (e : FeedEntry) : M unit :=
  bind (tweet_latest_update faults BeautifulSoup e) (fun _ =>
  bind reset_msg (fun _ =>
  send_dm_to_feed_subscribed_users users e)).

(** What the [except], [else] and [finally] clauses leave behind. *)
Definition concluded (e : FeedEntry) (h : pystr) (r : result unit) (w1 : World) : World :=
  log_out OutEntryUpdated
    (set_table
       (table w1 ++ [{| sha256_hash := h; date := get_latest_entry_date e;
                        row_title := title e; url := link e |}])
       (log_out
          match r with
          | Raise x => OutError x
          | Ok _ => OutNewUpdate (slice_to h 10) (title e) (get_latest_entry_date e)
          end w1)).

(** The text sent to each subscriber. *)
Definition dm_text (e : FeedEntry) : pystr := title e ++ NL ++ link e.

(** Every request that a computation adds to those already made satisfies
    [P]. *)
Definition requests_only {A} (P : Call -> bool) (m : M A) : Prop :=
  forall w, exists cs,
    calls (snd (m w)) = calls w ++ cs /\ forallb P cs = true.

(** A request that delivers a direct message. *)
Definition is_dm (c : Call) : bool :=
  match c with
  | SendDM _ _ => true
  | _ => false
  end.

(** ['\n'.join(msg)] for the message dict: its four keys. *)
Definition keys_text : pystr :=
  str "title" ++ NL ++ str "summary" ++ NL ++ str "url" ++ NL ++ str "img_url".

(** A post with media carries the four keys as its text. *)
Definition media_text_is_keys (c : Call) : bool :=
  match c with
  | UpdateWithMedia text _ => str_eqb text keys_text
  | _ => true
  end.

(** The claim as worded: every subscriber is sent the direct message. *)
Definition dm_sent_to_every_subscriber
    (faults : list Call -> Call -> option exn) (BeautifulSoup : pystr -> list Node)
    (users : list pystr) (e : FeedEntry) (w : World) : Prop :=
  forall u, In u users ->
    In (SendDM u (title e ++ NL ++ link e))
       (calls (snd (monitor_entry faults BeautifulSoup users e w))).

(** The message with its four keys in their fixed order. *)
Definition fields (vt vs vu vi : option pystr) : OrderedDict :=
  [ (str "title", vt); (str "summary", vs); (str "url", vu); (str "img_url", vi) ].

(** What a call left behind: its result and the requests made so far. *)
Definition outcome {A} (r : result A * World) : result A * list Call :=
  (fst r, calls (snd r)).

(** The result of a request, given the environment's answer. *)
Definition of_fault (f : option exn) : result unit :=
  match f with
  | None => Ok tt
  | Some x => Raise x
  end.

(** * Data of the examples *)

(** An entry, the same entry with a summary and a second date, and the
    same entry retitled. *)
Definition entry_a : FeedEntry :=
  {| title := str "Release v1.2.0 now available";
     link := str "http://example.org/r/120";
     published := Some (str "Mon, 02 Nov 2026 10:00:00 GMT");
     updated := None; summary := None; content := None; description := None |}.

Definition entry_a_with_summary : FeedEntry :=
  {| title := str "Release v1.2.0 now available";
     link := str "http://example.org/r/120";
     published := Some (str "Mon, 02 Nov 2026 10:00:00 GMT");
     updated := Some (str "Tue, 03 Nov 2026 10:00:00 GMT");
     summary := Some (str "Bug fixes"); content := None; description := None |}.

Definition entry_a_retitled : FeedEntry :=
  {| title := str "Release v1.2.1 now available";
     link := str "http://example.org/r/120";
     published := Some (str "Mon, 02 Nov 2026 10:00:00 GMT");
     updated := None; summary := None; content := None; description := None |}.

(** [entry_a] with no [published] date and a later [updated] date, and
    [entry_a] under another link. *)
Definition entry_a_redated : FeedEntry :=
  {| title := str "Release v1.2.0 now available";
     link := str "http://example.org/r/120";
     published := None;
     updated := Some (str "Tue, 03 Nov 2026 10:00:00 GMT");
     summary := None; content := None; description := None |}.

Definition entry_a_moved : FeedEntry :=
  {| title := str "Release v1.2.0 now available";
     link := str "http://example.org/r/121";
     published := Some (str "Mon, 02 Nov 2026 10:00:00 GMT");
     updated := None; summary := None; content := None; description := None |}.

(** A title that fills the limit left by the link, and a short summary. *)
Definition entry_tight : FeedEntry :=
  {| title := repeat 97 116;
     link := str "http://example.org/x";
     published := None; updated := None;
     summary := Some (str "b"); content := None; description := None |}.

(** An entry whose content holds an image. *)
Definition entry_img : FeedEntry :=
  {| title := str "New build"; link := str "http://example.org/b/7";
     published := Some (str "Tue, 03 Nov 2026 09:00:00 GMT"); updated := None;
     summary := Some (str "Nightly build 7 is out");
     content := Some (str "<p>New build <img src='http://example.org/i.png'></p>");
     description := None |}.

(** An entry whose only image tag has no [src]. *)
Definition entry_no_src : FeedEntry :=
  {| title := str "Logo"; link := str "http://example.org/logo";
     published := None; updated := None; summary := None;
     content := Some (str "<p><img alt='logo'></p>"); description := None |}.

(** An entry whose description holds no image. *)
Definition entry_no_img : FeedEntry :=
  {| title := str "Text"; link := str "http://example.org/text";
     published := None; updated := None; summary := None;
     content := None; description := Some (str "<p>No picture</p>") |}.

(** "Storm warning — updated": the dash is U+2014. *)
Definition entry_storm_updated : FeedEntry :=
  {| title := str "Storm warning " ++ [8212] ++ str " updated";
     link := str "http://example.org/storm";
     published := None; updated := None; summary := None;
     content := None; description := None |}.

(** An entry unrelated to [entry_a]. *)
Definition entry_unrelated : FeedEntry :=
  {| title := str "Quarterly report published";
     link := str "http://example.org/q3";
     published := None; updated := None; summary := None;
     content := None; description := None |}.

(** A parser for the examples: it knows three documents. *)
Definition toy_soup (html : pystr) : list Node :=
  if str_eqb html (str "<p>New build <img src='http://example.org/i.png'></p>")
  then [Tag (str "p") []
          [NavigableString (str "New build ");
           Tag (str "img") [(str "src", str "http://example.org/i.png")] []]]
  else if str_eqb html (str "<p><img alt='logo'></p>")
  then [Tag (str "p") [] [Tag (str "img") [(str "alt", str "logo")] []]]
  else if str_eqb html (str "<p>No picture</p>")
  then [Tag (str "p") [] [NavigableString (str "No picture")]]
  else [NavigableString html].

(** Every request succeeds. *)
Definition no_faults : list Call -> Call -> option exn := fun _ _ => None.

(** The platform rejects every status update. *)
Definition reject_updates : list Call -> Call -> option exn :=
  fun _ c =>
    match c with
    | Update _ | UpdateWithMedia _ _ => Some TwitterHTTPError
    | _ => None
    end.

(** The platform rejects the media post and the first plain post. *)
Definition reject_twice : list Call -> Call -> option exn :=
  fun tr c =>
    match c with
    | UpdateWithMedia _ _ => Some TwitterHTTPError
    | Update _ =>
        if existsb (fun c' => match c' with Update _ => true | _ => false end) tr
        then None else Some TwitterHTTPError
    | _ => None
    end.







(** Nothing recorded, nothing tweeted, three subscribers. *)
Definition world_empty : World :=
  {| table := []; subscribed := [str "alice"; str "bob"; str "carol"];
     timeline := []; next_id := 1; calls := []; stdout := [] |}.


(** [entry_a] was published and recorded in an earlier cycle; the account
    has one older tweet. *)
Definition world_after_a : World :=
  {| table := [row_of entry_a];
     subscribed := [str "alice"];
     timeline :=
       [ {| tweet_id := 2;
            status := str "Release v1.2.0 now available" ++ NL
                      ++ str "http://example.org/r/120";
            media := None |};
         {| tweet_id := 1; status := str "Hello"; media := None |} ];
     next_id := 3; calls := []; stdout := [] |}.

(** The last recorded title is "Storm warning". *)
Definition world_storm : World :=
  {| table := [ {| sha256_hash := str "00"; date := [];
                   row_title := str "Storm warning";
                   url := str "http://example.org/storm" |} ];
     subscribed := []; timeline := []; next_id := 1; calls := []; stdout := [] |}.


(** * Vocabulary and data of the further properties *)

(** A lower-case hexadecimal digit. *)
Definition is_hex_char (c : Z) : Prop := 48 <= c <= 57 \/ 97 <= c <= 102.

(** A surrogate: a code point that UTF-8 does not encode. *)
Definition is_surrogate (c : Z) : Prop := 55296 <= c <= 57343.

(** A code point that UTF-8 encodes. *)
Definition is_scalar (c : Z) : Prop := 0 <= c < 55296 \/ 57343 < c < 1114112.

(** [entry_a] with a lone surrogate at the end of its title. *)
Definition entry_surrogate : FeedEntry :=
  {| title := str "Release v1.2.0 now available" ++ [55357];
     link := str "http://example.org/r/120";
     published := Some (str "Mon, 02 Nov 2026 10:00:00 GMT");
     updated := None; summary := None; content := None; description := None |}.

(** The item that carries exactly the fields of an entry. *)
Definition item_of (e : FeedEntry) : FeedItem :=
  {| item_title := Some (title e); item_link := Some (link e);
     item_published := published e; item_updated := updated e;
     item_summary := summary e; item_content := content e;
     item_description := description e |}.

(** An item with a title and no link. *)
Definition item_no_link : FeedItem :=
  {| item_title := Some (str "Untitled draft"); item_link := None;
     item_published := None; item_updated := None; item_summary := None;
     item_content := None; item_description := None |}.

(** The table of [world_after_a] with an older row before it. *)
Definition world_two_rows : World :=
  {| table := [ {| sha256_hash := str "00"; date := [];
                   row_title := str "Storm warning";
                   url := str "http://example.org/storm" |};
                row_of entry_a ];
     subscribed := []; timeline := []; next_id := 1; calls := []; stdout := [] |}.

(** The last recorded title is empty. *)
Definition world_blank_title : World :=
  {| table := [ {| sha256_hash := str "00"; date := [];
                   row_title := []; url := str "http://example.org/blank" |} ];
     subscribed := [];
     timeline := [ {| tweet_id := 1; status := str "Hello"; media := None |} ];
     next_id := 2; calls := []; stdout := [] |}.

(** [entry_img] without its summary. *)
Definition entry_img_bare : FeedEntry :=
  {| title := str "New build"; link := str "http://example.org/b/7";
     published := Some (str "Tue, 03 Nov 2026 09:00:00 GMT"); updated := None;
     summary := None;
     content := Some (str "<p>New build <img src='http://example.org/i.png'></p>");
     description := None |}.

(** An entry without a title. *)
Definition entry_untitled : FeedEntry :=
  {| title := []; link := str "http://example.org/u";
     published := None; updated := None; summary := Some (str "Body only");
     content := None; description := None |}.

(** The image host is unreachable. *)
Definition fetch_fails : list Call -> Call -> option exn :=
  fun _ c =>
    match c with
    | UrlRetrieve _ => Some URLError
    | _ => None
    end.

(** The platform is unreachable: posting fails with an error that is not a
    [TwitterHTTPError]. *)
Definition network_down : list Call -> Call -> option exn :=
  fun _ c =>
    match c with
    | Update _ | UpdateWithMedia _ _ => Some URLError
    | _ => None
    end.

(** A tag called [name] with attributes [attrs] occurs in the tree rooted
    at a node. *)
Inductive tag_in (name : pystr) (attrs : list (pystr * pystr)) : Node -> Prop :=
| tag_in_here children : tag_in name attrs (Tag name attrs children)
| tag_in_below nm attrs' children c :
    In c children -> tag_in name attrs c -> tag_in name attrs (Tag nm attrs' children).

(** An entry whose content is the empty string and whose description holds
    an image. *)
Definition entry_blank_content : FeedEntry :=
  {| title := str "Blank"; link := str "http://example.org/blank";
     published := None; updated := None; summary := None;
     content := Some [];
     description := Some (str "<p>New build <img src='http://example.org/i.png'></p>") |}.

(** A title of 200 characters. *)
Definition entry_long_title : FeedEntry :=
  {| title := repeat 97 200; link := str "http://example.org/l";
     published := None; updated := None; summary := Some (str "dropped");
     content := None; description := None |}.

(** A summary of 200 characters. *)
Definition entry_long_summary : FeedEntry :=
  {| title := str "New build"; link := str "http://example.org/s";
     published := None; updated := None; summary := Some (repeat 98 200);
     content := None; description := None |}.

(** * Properties *)

Example sha256_abc :
  SHA256.hexdigest [97; 98; 99] =
  str "ba7816bf8f01cfea414140de5dae2223b00361a396177a9cb410ff61f20015ad".
Proof. vm_compute. reflexivity. Qed.

Example sha256_empty :
  SHA256.hexdigest [] =
  str "e3b0c44298fc1c149afbf4c8996fb92427ae41e4649b934ca495991b7852b855".
Proof. vm_compute. reflexivity. Qed.

Example ratio_release :
  Difflib.ratio (str "Release v1.2.1 now available")
                (str "Release v1.2.0 now available") = (54 # 56)%Q.
Proof. vm_compute. reflexivity. Qed.

Example ratio_abcd :
  Difflib.ratio (str "abcd") (str "bcde") = (6 # 8)%Q.
Proof. vm_compute. reflexivity. Qed.

(** ** The fingerprint *)

Lemma utf8_char_shape (c : Z) (bs : list Z) :
  utf8_char c = Some bs ->
  (0 <= c < 128 /\ bs = [c])
  \/ (128 <= c < 2048 /\ bs = [192 + c / 64; 128 + c mod 64])
  \/ (2048 <= c < 65536
      /\ bs = [224 + c / 4096; 128 + (c / 64) mod 64; 128 + c mod 64])
  \/ (65536 <= c < 1114112
      /\ bs = [240 + c / 262144; 128 + (c / 4096) mod 64;
               128 + (c / 64) mod 64; 128 + c mod 64]).
Proof.
  unfold utf8_char.
  destruct (c <? 0) eqn:E0; [discriminate|]. apply Z.ltb_ge in E0.
  destruct (c <? 128) eqn:E1.
  { apply Z.ltb_lt in E1. intros E; inversion E. left. split; [lia|reflexivity]. }
  apply Z.ltb_ge in E1.
  destruct (c <? 2048) eqn:E2.
  { apply Z.ltb_lt in E2. intros E; inversion E.
    right; left. split; [lia|reflexivity]. }
  apply Z.ltb_ge in E2.
  destruct (c <? 65536) eqn:E3.
  { apply Z.ltb_lt in E3.
    destruct ((55296 <=? c) && (c <=? 57343)); [discriminate|].
    intros E; inversion E. right; right; left. split; [lia|reflexivity]. }
  apply Z.ltb_ge in E3.
  destruct (c <? 1114112) eqn:E4; [|discriminate].
  apply Z.ltb_lt in E4. intros E; inversion E.
  right; right; right. split; [lia|reflexivity].
Qed.

Lemma cons_eq_inv {A} (x y : A) (l l' : list A) :
  x :: l = y :: l' -> x = y /\ l = l'.
Proof. intros E. inversion E. split; reflexivity. Qed.

Lemma utf8_digits (c : Z) :
  c = 64 * (c / 64) + c mod 64
  /\ c / 64 = 64 * (c / 4096) + (c / 64) mod 64
  /\ c / 4096 = 64 * (c / 262144) + (c / 4096) mod 64
  /\ (0 <= c mod 64 < 64 /\ 0 <= (c / 64) mod 64 < 64
      /\ 0 <= (c / 4096) mod 64 < 64).
Proof.
  repeat split; try (apply Z.mod_pos_bound; lia).
  - apply Z.div_mod; lia.
  - replace (c / 4096) with (c / 64 / 64)
      by (rewrite Z.div_div by lia; reflexivity).
    apply Z.div_mod; lia.
  - replace (c / 262144) with (c / 4096 / 64)
      by (rewrite Z.div_div by lia; reflexivity).
    apply Z.div_mod; lia.
Qed.

Lemma utf8_char_cancel (c1 c2 : Z) (b1 b2 r1 r2 : list Z) :
  utf8_char c1 = Some b1 -> utf8_char c2 = Some b2 ->
  b1 ++ r1 = b2 ++ r2 -> c1 = c2 /\ r1 = r2.
Proof.
  intros S1 S2.
  apply utf8_char_shape in S1. apply utf8_char_shape in S2.
  pose proof (utf8_digits c1) as [A1 [B1 [C1 D1]]].
  pose proof (utf8_digits c2) as [A2 [B2 [C2 D2]]].
  destruct S1 as [[R1 ->] | [[R1 ->] | [[R1 ->] | [R1 ->]]]];
    destruct S2 as [[R2 ->] | [[R2 ->] | [[R2 ->] | [R2 ->]]]];
    cbn [app]; intros E;
    repeat match goal with
           | H : _ :: _ = _ :: _ |- _ => apply cons_eq_inv in H; destruct H
           end;
    first [ split; [lia | assumption] | exfalso; lia ].
Qed.

Lemma utf8_char_nonempty (c : Z) : utf8_char c <> Some [].
Proof.
  intros E. apply utf8_char_shape in E.
  destruct E as [[_ E] | [[_ E] | [[_ E] | [_ E]]]]; discriminate.
Qed.

Lemma utf8_injective (s1 : pystr) :
  forall s2 b, utf8 s1 = Some b -> utf8 s2 = Some b -> s1 = s2.
Proof.
  induction s1 as [|c1 s1 IH]; intros [|c2 s2] b; simpl.
  - reflexivity.
  - intros E1. inversion E1; subst.
    destruct (utf8_char c2) as [bs|] eqn:Ec; [|discriminate].
    destruct (utf8 s2); [|discriminate].
    intros E2. inversion E2 as [E]. exfalso.
    destruct bs; [|discriminate]. exact (utf8_char_nonempty _ Ec).
  - destruct (utf8_char c1) as [bs|] eqn:Ec; [|discriminate].
    destruct (utf8 s1); [|discriminate].
    intros E1 E2. inversion E1; inversion E2; subst. exfalso.
    destruct bs; [|discriminate]. exact (utf8_char_nonempty _ Ec).
  - destruct (utf8_char c1) as [bs1|] eqn:Ec1; [|discriminate].
    destruct (utf8 s1) as [r1|] eqn:Es1; [|discriminate].
    destruct (utf8_char c2) as [bs2|] eqn:Ec2; [|discriminate].
    destruct (utf8 s2) as [r2|] eqn:Es2; [|discriminate].
    intros E1 E2. inversion E1; subst. inversion E2 as [E].
    destruct (utf8_char_cancel _ _ _ _ _ _ Ec2 Ec1 E) as [-> ->].
    f_equal. apply (IH s2 r1); [reflexivity | assumption].
Qed.

Lemma hex_digit_injective (d1 d2 : Z) :
  0 <= d1 < 16 -> 0 <= d2 < 16 ->
  SHA256.hex_digit d1 = SHA256.hex_digit d2 -> d1 = d2.
Proof.
  unfold SHA256.hex_digit.
  destruct (d1 <? 10) eqn:E1, (d2 <? 10) eqn:E2;
    first [apply Z.ltb_lt in E1 | apply Z.ltb_ge in E1];
    first [apply Z.ltb_lt in E2 | apply Z.ltb_ge in E2]; lia.
Qed.

Lemma hex_injective (l1 : list Z) :
  forall l2, Forall is_byte l1 -> Forall is_byte l2 ->
  SHA256.hex l1 = SHA256.hex l2 -> l1 = l2.
Proof.
  induction l1 as [|x l1 IH]; intros [|y l2] F1 F2; simpl; try discriminate.
  - reflexivity.
  - intros E. inversion E as [[Hhi Hlo Hrest]].
    inversion F1 as [|? ? Bx F1']; inversion F2 as [|? ? By F2']; subst.
    unfold is_byte in Bx, By.
    apply hex_digit_injective in Hhi;
      [|Z.to_euclidean_division_equations; lia
       |Z.to_euclidean_division_equations; lia].
    apply hex_digit_injective in Hlo;
      [|Z.to_euclidean_division_equations; lia
       |Z.to_euclidean_division_equations; lia].
    f_equal.
    + Z.to_euclidean_division_equations; lia.
    + apply IH; assumption.
Qed.

Lemma be_bytes_are_bytes (n : nat) (x : Z) : Forall is_byte (SHA256.be_bytes n x).
Proof.
  unfold SHA256.be_bytes. apply Forall_forall. intros b Hb.
  apply in_map_iff in Hb. destruct Hb as [i [<- _]].
  unfold is_byte. change 255 with (Z.ones 8).
  rewrite Z.land_ones by lia.
  change (2 ^ 8) with 256. apply Z.mod_pos_bound. lia.
Qed.

Lemma digest_bytes (msg : list Z) : Forall is_byte (SHA256.digest msg).
Proof.
  unfold SHA256.digest.
  generalize (fold_left SHA256.compress
    (SHA256.chunks (length (SHA256.words (SHA256.pad msg)))
       (SHA256.words (SHA256.pad msg))) SHA256.H0).
  intros H. induction H as [|h H IH]; cbn [flat_map].
  - constructor.
  - apply Forall_app. split; [apply be_bytes_are_bytes | exact IH].
Qed.

Lemma round_length (st : list Z) (kw : Z * Z) :
  length (SHA256.round st kw) = length st.
Proof.
  destruct st as [|a [|b [|c [|d [|e [|f [|g [|h [|i st]]]]]]]]]; reflexivity.
Qed.

Lemma rounds_length (l : list (Z * Z)) :
  forall st, length (fold_left SHA256.round l st) = length st.
Proof.
  induction l as [|kw l IH]; intros st; cbn [fold_left].
  - reflexivity.
  - rewrite IH. apply round_length.
Qed.

Lemma compress_length (H block : list Z) :
  length (SHA256.compress H block) = length H.
Proof.
  unfold SHA256.compress.
  rewrite length_map, length_combine, rounds_length. apply Nat.min_id.
Qed.

Lemma digest_length (msg : list Z) : length (SHA256.digest msg) = 32%nat.
Proof.
  unfold SHA256.digest.
  set (blocks := SHA256.chunks _ _).
  assert (L : forall bl H, length H = 8%nat ->
                length (fold_left SHA256.compress bl H) = 8%nat).
  { induction bl as [|b bl IH]; intros H HL; cbn [fold_left].
    - exact HL.
    - apply IH. rewrite compress_length. exact HL. }
  specialize (L blocks SHA256.H0 eq_refl).
  destruct (fold_left SHA256.compress blocks SHA256.H0)
    as [|a [|b [|c [|d [|e [|f [|g [|h [|i st]]]]]]]]]; try discriminate L.
  reflexivity.
Qed.

Lemma hex_length (bs : list Z) : length (SHA256.hex bs) = (2 * length bs)%nat.
Proof.
  induction bs as [|b bs IH]; [reflexivity|].
  unfold SHA256.hex in *. cbn [flat_map app length]. rewrite IH. lia.
Qed.

Lemma date_of_get (e : FeedEntry) (d : pystr) :
  date_of e d -> get_latest_entry_date e = d.
Proof.
  unfold get_latest_entry_date.
  intros [d' P | d' P U | P U]; rewrite P; try rewrite U; reflexivity.
Qed.

Lemma one_field_changed_text (d1 t1 l1 d2 t2 l2 : pystr) :
  one_field_changed d1 t1 l1 d2 t2 l2 -> d1 ++ t1 ++ l1 <> d2 ++ t2 ++ l2.
Proof.
  unfold one_field_changed.
  intros [[Hd [Ht Hl]] | [[Hd [Ht Hl]] | [Hd [Ht Hl]]]] E.
  - rewrite Ht, Hl in E. apply app_inv_tail in E. contradiction.
  - rewrite Hd, Hl in E. apply app_inv_head in E.
    apply app_inv_tail in E. contradiction.
  - rewrite Hd, Ht in E. apply app_inv_head in E.
    apply app_inv_head in E. contradiction.
Qed.

(** C8. Let [d1] and [d2] be the dates of the two entries: [published], or
    else [updated], or else the empty string. The fingerprint of an entry
    is the hexadecimal form, 64 digits, of the 32-byte SHA-256 digest of
    the UTF-8 bytes of date ++ title ++ link, where the digest agrees with
    the examples of the standard (one-block, empty and two-block messages).
    Entries with the same (date, title, link) have the same fingerprint.
    When exactly one of the three fields differs, the hashed byte strings
    differ and both entries have a fingerprint, and the two fingerprints
    differ unless SHA-256 collides on these two byte strings. *)
Theorem fingerprint_of_triple (e1 e2 : FeedEntry) (d1 d2 : pystr) :
  date_of e1 d1 -> date_of e2 d2 ->
  (forall bs, utf8 (d1 ++ title e1 ++ link e1) = Some bs ->
     rss_latest_sha256 e1 = Ok (SHA256.hex (SHA256.digest bs))
     /\ length (SHA256.digest bs) = 32%nat
     /\ length (SHA256.hex (SHA256.digest bs)) = 64%nat)
  /\ (SHA256.hex (SHA256.digest (str "abc"))
      = str "ba7816bf8f01cfea414140de5dae2223b00361a396177a9cb410ff61f20015ad"
      /\ SHA256.hex (SHA256.digest [])
         = str "e3b0c44298fc1c149afbf4c8996fb92427ae41e4649b934ca495991b7852b855"
      /\ SHA256.hex (SHA256.digest
                       (str "abcdbcdecdefdefgefghfghighijhijkijkljklmklmnlmnomnopnopq"))
         = str "248d6a61d20638b8e5c026930c3e6039a33ce45964ff2167f6ecedd419db06c1")
  /\ (d1 = d2 -> title e1 = title e2 -> link e1 = link e2 ->
      rss_latest_sha256 e1 = rss_latest_sha256 e2)
  /\ (forall b1 b2,
      one_field_changed d1 (title e1) (link e1) d2 (title e2) (link e2) ->
      utf8 (d1 ++ title e1 ++ link e1) = Some b1 ->
      utf8 (d2 ++ title e2 ++ link e2) = Some b2 ->
      (SHA256.digest b1 = SHA256.digest b2 -> b1 = b2) ->
      b1 <> b2
      /\ exists h1 h2,
           rss_latest_sha256 e1 = Ok h1 /\ rss_latest_sha256 e2 = Ok h2
           /\ h1 <> h2).
Proof.
  intros D1 D2. apply date_of_get in D1, D2.
  split; [|split; [|split]].
  - intros bs E. unfold rss_latest_sha256, encode_utf8. rewrite D1, E.
    split; [reflexivity|]. split; [apply digest_length|].
    rewrite hex_length, digest_length. reflexivity.
  - split; [|split]; vm_compute; reflexivity.
  - intros Hd Ht Hl. unfold rss_latest_sha256. rewrite D1, D2, Hd, Ht, Hl. reflexivity.
  - intros b1 b2 Hc E1 E2 Hno.
    assert (Hb : b1 <> b2).
    { intros ->. apply (one_field_changed_text _ _ _ _ _ _ Hc).
      apply (utf8_injective _ _ _ E1 E2). }
    split; [exact Hb|].
    exists (SHA256.hex (SHA256.digest b1)), (SHA256.hex (SHA256.digest b2)).
    unfold rss_latest_sha256, encode_utf8. rewrite D1, D2, E1, E2.
    split; [reflexivity|]. split; [reflexivity|].
    intros Hx. apply hex_injective in Hx; try apply digest_bytes.
    apply Hb, Hno, Hx.
Qed.

Lemma fingerprint_of_triple_witness :
  rss_latest_sha256 entry_a
  = Ok (str "94154af6f87fdceb7b9c3245effcfe6ec830f66ae69316125dd3f874365c3eed")
  /\ rss_latest_sha256 entry_storm_updated
     = Ok (str "00f1655228650650ac582a2030a2c65f8d11b77f5b922f90386609fcbdf58ab8")
  /\ rss_latest_sha256 entry_a = rss_latest_sha256 entry_a_with_summary
  /\ rss_latest_sha256 entry_a <> rss_latest_sha256 entry_a_retitled
  /\ rss_latest_sha256 entry_a <> rss_latest_sha256 entry_a_redated
  /\ rss_latest_sha256 entry_a_redated
     = Ok (str "550319c20100c9e8f92f4a966f93c16ffa39eb62bc45419bbe74d626782e5303")
  /\ rss_latest_sha256 entry_a <> rss_latest_sha256 entry_a_moved.
Proof.
  assert (Da : date_of entry_a (str "Mon, 02 Nov 2026 10:00:00 GMT"))
    by (apply date_published; reflexivity).
  assert (Ds : date_of entry_storm_updated [])
    by (apply date_absent; reflexivity).
  assert (Dr : date_of entry_a_redated (str "Tue, 03 Nov 2026 10:00:00 GMT"))
    by (apply date_updated; reflexivity).
  assert (differ : forall e d,
            date_of e d ->
            one_field_changed (str "Mon, 02 Nov 2026 10:00:00 GMT") (title entry_a)
              (link entry_a) d (title e) (link e) ->
            (exists b1, utf8 (str "Mon, 02 Nov 2026 10:00:00 GMT" ++ title entry_a
                              ++ link entry_a) = Some b1
               /\ exists b2, utf8 (d ++ title e ++ link e) = Some b2
               /\ (SHA256.digest b1 = SHA256.digest b2 -> b1 = b2)) ->
            rss_latest_sha256 entry_a <> rss_latest_sha256 e).
  { intros e d De Hc [b1 [E1 [b2 [E2 Hno]]]].
    destruct (fingerprint_of_triple entry_a e _ d Da De) as [_ [_ [_ H]]].
    destruct (H b1 b2 Hc E1 E2 Hno) as [_ [h1 [h2 [R1 [R2 Hne]]]]].
    rewrite R1, R2. intros E. inversion E. contradiction. }
  split; [|split; [|split; [|split; [|split; [|split]]]]].
  - destruct (fingerprint_of_triple entry_a entry_a _ _ Da Da) as [H _].
    destruct (H (str "Mon, 02 Nov 2026 10:00:00 GMTRelease v1.2.0 now availablehttp://example.org/r/120"))
      as [R _]; [vm_compute; reflexivity|].
    rewrite R. vm_compute. reflexivity.
  - destruct (fingerprint_of_triple entry_storm_updated entry_storm_updated _ _ Ds Ds)
      as [H _].
    destruct (H (str "Storm warning " ++ [226; 128; 148]
                 ++ str " updatedhttp://example.org/storm"))
      as [R _]; [vm_compute; reflexivity|].
    rewrite R. vm_compute. reflexivity.
  - apply (fingerprint_of_triple entry_a entry_a_with_summary
             (str "Mon, 02 Nov 2026 10:00:00 GMT") (str "Mon, 02 Nov 2026 10:00:00 GMT"));
      try reflexivity; apply date_published; reflexivity.
  - apply (differ entry_a_retitled (str "Mon, 02 Nov 2026 10:00:00 GMT")).
    + apply date_published; reflexivity.
    + right; left. split; [reflexivity|]. split; [|reflexivity].
      vm_compute. discriminate.
    + eexists. split; [vm_compute; reflexivity|].
      eexists. split; [vm_compute; reflexivity|].
      intros E. vm_compute in E. discriminate E.
  - apply (differ entry_a_redated (str "Tue, 03 Nov 2026 10:00:00 GMT") Dr).
    + left. split; [|split; reflexivity]. vm_compute. discriminate.
    + eexists. split; [vm_compute; reflexivity|].
      eexists. split; [vm_compute; reflexivity|].
      intros E. vm_compute in E. discriminate E.
  - destruct (fingerprint_of_triple entry_a_redated entry_a_redated _ _ Dr Dr) as [H _].
    destruct (H (str "Tue, 03 Nov 2026 10:00:00 GMTRelease v1.2.0 now availablehttp://example.org/r/120"))
      as [R _]; [vm_compute; reflexivity|].
    rewrite R. vm_compute. reflexivity.
  - apply (differ entry_a_moved (str "Mon, 02 Nov 2026 10:00:00 GMT")).
    + apply date_published; reflexivity.
    + right; right. split; [reflexivity|]. split; [reflexivity|].
      vm_compute. discriminate.
    + eexists. split; [vm_compute; reflexivity|].
      eexists. split; [vm_compute; reflexivity|].
      intros E. vm_compute in E. discriminate E.
Defined.

(** ** Duplicate detection *)





Lemma get_last_table_entry_app (w : World) (t : list HistoryRecord) (r : HistoryRecord) :
  table w = t ++ [r] -> get_last_table_entry w = Some r.
Proof.
  unfold get_last_table_entry. intros ->.
  rewrite map_app. simpl. apply last_last.
Qed.

(** *** The matcher's work list empties within its fuel *)

Section MatcherFacts.

Variables a b : pystr.










End MatcherFacts.

(** *** Every matching block is a common run *)

Lemma indices_sound (x : Z) (s : pystr) :
  forall j0 j, In j (Difflib.indices x s j0) ->
    j0 <= j < j0 + len s /\ Difflib.getitem s (j - j0) = x.
Proof.
  induction s as [|c s IH]; intros j0 j Hin; [destruct Hin|].
  cbn [Difflib.indices] in Hin.
  assert (L : len (c :: s) = len s + 1) by (unfold len; cbn [length]; lia).
  assert (Tl : In j (Difflib.indices x s (j0 + 1)) ->
               j0 <= j < j0 + len (c :: s) /\ Difflib.getitem (c :: s) (j - j0) = x).
  { intros H. destruct (IH _ _ H) as [B G]. split; [lia|].
    unfold Difflib.getitem in *.
    replace (Z.to_nat (j - j0)) with (S (Z.to_nat (j - (j0 + 1)))) by lia.
    exact G. }
  destruct (c =? x) eqn:E; [|exact (Tl Hin)].
  destruct Hin as [<- | Hin]; [|exact (Tl Hin)].
  apply Z.eqb_eq in E. split; [unfold len; cbn [length]; lia|].
  unfold Difflib.getitem. replace (j0 - j0) with 0 by lia. exact E.
Qed.

Lemma b2j_sound (b : pystr) (x j : Z) :
  In j (Difflib.b2j b x) -> 0 <= j < len b /\ Difflib.getitem b j = x.
Proof.
  unfold Difflib.b2j. destruct (Difflib.popular b x); [intros []|].
  intros H. apply indices_sound in H. replace (j - 0) with j in H by lia. exact H.
Qed.

Section MatcherSound.

Variables a b : pystr.

Lemma get0_runs (i : Z) (d : list (Z * Z)) (key : Z) :
  runs_ending a b i d ->
  Difflib.get0 d key = 0
  \/ (1 <= Difflib.get0 d key
      /\ common_run a b (i - Difflib.get0 d key + 1,
                         key - Difflib.get0 d key + 1, Difflib.get0 d key)).
Proof.
  induction d as [|[k v] d IH]; intros R; cbn [Difflib.get0]; [left; reflexivity|].
  inversion R as [|? ? Hp R']; subst. cbn [fst snd] in Hp.
  destruct (k =? key) eqn:E; [|exact (IH R')].
  apply Z.eqb_eq in E. subst k. right. exact Hp.
Qed.

Lemma scan_row_sound (i blo bhi : Z) (j2len : list (Z * Z)) :
  0 <= i < len a -> runs_ending a b (i - 1) j2len ->
  forall js newj2len best,
    (forall j, In j js -> 0 <= j < len b
                          /\ Difflib.getitem b j = Difflib.getitem a i) ->
    runs_ending a b i newj2len -> common_run a b best ->
    runs_ending a b i (fst (Difflib.scan_row i blo bhi j2len js newj2len best))
    /\ common_run a b (snd (Difflib.scan_row i blo bhi j2len js newj2len best)).
Proof.
  intros Hi Rj. induction js as [|j js IH]; intros newj2len best Hjs Rn Cb;
    cbn [Difflib.scan_row].
  - split; assumption.
  - assert (Hjs' : forall j', In j' js ->
                     0 <= j' < len b /\ Difflib.getitem b j' = Difflib.getitem a i)
      by (intros j' H; apply Hjs; right; exact H).
    destruct (j <? blo); [apply IH; assumption|].
    destruct (bhi <=? j); [split; assumption|].
    destruct (Hjs j (or_introl eq_refl)) as [Bj Ej].
    assert (New : 1 <= Difflib.get0 j2len (j - 1) + 1
                  /\ common_run a b
                       (i - (Difflib.get0 j2len (j - 1) + 1) + 1,
                        j - (Difflib.get0 j2len (j - 1) + 1) + 1,
                        Difflib.get0 j2len (j - 1) + 1)).
    { destruct (get0_runs (i - 1) j2len (j - 1) Rj) as [Z0 | [P [K [I [A [J [B E]]]]]]].
      - rewrite Z0. split; [lia|]. unfold common_run.
        repeat split; try lia.
        intros d Hd. replace d with 0 by lia.
        replace (i - (0 + 1) + 1 + 0) with i by lia.
        replace (j - (0 + 1) + 1 + 0) with j by lia. symmetry. exact Ej.
      - set (v := Difflib.get0 j2len (j - 1)) in *.
        split; [lia|]. unfold common_run. repeat split; try lia.
        intros d Hd.
        destruct (Z.eq_dec d v) as [-> | Hne].
        + replace (i - (v + 1) + 1 + v) with i by lia.
          replace (j - (v + 1) + 1 + v) with j by lia. symmetry. exact Ej.
        + replace (i - (v + 1) + 1 + d) with (i - 1 - v + 1 + d) by lia.
          replace (j - (v + 1) + 1 + d) with (j - 1 - v + 1 + d) by lia.
          apply E. lia. }
    destruct best as [[bi bj] bk]. apply IH.
    + exact Hjs'.
    + constructor; [exact New | exact Rn].
    + destruct (bk <? Difflib.get0 j2len (j - 1) + 1); [exact (proj2 New) | exact Cb].
Qed.

Lemma scan_rows_sound (blo bhi lo : Z) (n : nat) :
  forall (s : nat) (j2len : list (Z * Z)) (best : Difflib.Match),
    0 <= lo -> lo + Z.of_nat (s + n) <= len a ->
    runs_ending a b (lo + Z.of_nat s - 1) j2len -> common_run a b best ->
    common_run a b
      (Difflib.scan_rows a b
         (map (fun k => lo + Z.of_nat k) (seq s n)) blo bhi j2len best).
Proof.
  induction n as [|n IH]; intros s j2len best Hlo Hhi Rj Cb;
    cbn [seq map Difflib.scan_rows].
  - exact Cb.
  - pose proof (scan_row_sound (lo + Z.of_nat s) blo bhi j2len
                  ltac:(lia) Rj
                  (Difflib.b2j b (Difflib.getitem a (lo + Z.of_nat s))) [] best
                  (fun j H => b2j_sound b _ j H)
                  ltac:(constructor) Cb) as [R' C'].
    destruct (Difflib.scan_row (lo + Z.of_nat s) blo bhi j2len
                (Difflib.b2j b (Difflib.getitem a (lo + Z.of_nat s))) [] best)
      as [newj2len best'].
    cbn [fst snd] in R', C'. apply IH; try assumption; try lia.
    replace (lo + Z.of_nat (S s) - 1) with (lo + Z.of_nat s) by lia.
    exact R'.
Qed.

Lemma extend_left_sound (alo blo : Z) (n : nat) :
  0 <= alo -> 0 <= blo ->
  forall m, common_run a b m -> common_run a b (Difflib.extend_left a b n alo blo m).
Proof.
  intros Ha Hb. induction n as [|n IH]; intros [[i j] k] C;
    cbn [Difflib.extend_left]; [exact C|].
  destruct ((alo <? i) && (blo <? j)
            && (Difflib.getitem a (i - 1) =? Difflib.getitem b (j - 1))) eqn:G;
    [|exact C].
  apply IH. apply andb_true_iff in G. destruct G as [G E].
  apply andb_true_iff in G. destruct G as [G1 G2].
  apply Z.ltb_lt in G1, G2. apply Z.eqb_eq in E.
  destruct C as [K [I [A [J [B D]]]]]. unfold common_run. repeat split; try lia.
  intros d Hd. destruct (Z.eq_dec d 0) as [-> | Hne].
  - rewrite !Z.add_0_r. exact E.
  - replace (i - 1 + d) with (i + (d - 1)) by lia.
    replace (j - 1 + d) with (j + (d - 1)) by lia. apply D. lia.
Qed.

Lemma extend_right_sound (ahi bhi : Z) (n : nat) :
  ahi <= len a -> bhi <= len b ->
  forall m, common_run a b m -> common_run a b (Difflib.extend_right a b n ahi bhi m).
Proof.
  intros Ha Hb. induction n as [|n IH]; intros [[i j] k] C;
    cbn [Difflib.extend_right]; [exact C|].
  destruct ((i + k <? ahi) && (j + k <? bhi)
            && (Difflib.getitem a (i + k) =? Difflib.getitem b (j + k))) eqn:G;
    [|exact C].
  apply IH. apply andb_true_iff in G. destruct G as [G E].
  apply andb_true_iff in G. destruct G as [G1 G2].
  apply Z.ltb_lt in G1, G2. apply Z.eqb_eq in E.
  destruct C as [K [I [A [J [B D]]]]]. unfold common_run. repeat split; try lia.
  intros d Hd. destruct (Z.eq_dec d k) as [-> | Hne].
  - exact E.
  - apply D. lia.
Qed.

Lemma find_longest_match_sound (alo ahi blo bhi : Z) :
  valid_item a b (alo, ahi, blo, bhi) ->
  common_run a b (Difflib.find_longest_match a b alo ahi blo bhi).
Proof.
  intros [Ha [Hab [Ha' [Hb [Hbb Hb']]]]].
  unfold Difflib.find_longest_match, Difflib.range.
  set (m0 := Difflib.scan_rows a b _ blo bhi [] (alo, blo, 0)).
  assert (C0 : common_run a b m0).
  { apply scan_rows_sound; try lia.
    - constructor.
    - unfold common_run. repeat split; try lia. }
  set (m1 := Difflib.extend_left a b _ alo blo m0).
  assert (C1 : common_run a b m1) by (apply extend_left_sound; assumption).
  clearbody m1. destruct m1 as [[i1 j1] k1].
  apply extend_right_sound; assumption.
Qed.

Lemma matching_loop_sound (fuel : nat) :
  forall queue blocks,
    Forall (valid_item a b) queue -> Forall (common_run a b) blocks ->
    Forall (common_run a b) (Difflib.matching_loop a b fuel queue blocks).
Proof.
  induction fuel as [|fuel IH]; intros queue blocks Vq Cb;
    cbn [Difflib.matching_loop]; [exact Cb|].
  destruct queue as [|[[[alo ahi] blo] bhi] q]; [exact Cb|].
  inversion Vq as [|? ? V Vq']; subst.
  pose proof (find_longest_match_sound alo ahi blo bhi V) as C.
  destruct V as [Ha [Hab [Ha' [Hb [Hbb Hb']]]]].
  destruct (Difflib.find_longest_match a b alo ahi blo bhi) as [[i j] k].
  destruct (k =? 0); [apply IH; assumption|].
  assert (C' := C). destruct C' as [K [I [A [J [B _]]]]].
  apply IH.
  - destruct ((alo <? i) && (blo <? j)) eqn:G1;
      destruct ((i + k <? ahi) && (j + k <? bhi)) eqn:G2;
      repeat match goal with
             | H : (_ && _) = true |- _ =>
                 apply andb_true_iff in H; destruct H as [?H ?H]
             | H : (_ <? _) = true |- _ => apply Z.ltb_lt in H
             end;
      repeat (constructor; [unfold valid_item; lia|]); exact Vq'.
  - apply Forall_app. split; [exact Cb | constructor; [exact C | constructor]].
Qed.

Lemma insert_sorted_sound (x : Difflib.Match) (l : list Difflib.Match) :
  common_run a b x -> Forall (common_run a b) l ->
  Forall (common_run a b) (Difflib.insert_sorted x l).
Proof.
  intros Cx. induction l as [|y l IH]; intros Cl; cbn [Difflib.insert_sorted].
  - constructor; [exact Cx | constructor].
  - inversion Cl as [|? ? Cy Cl']; subst.
    destruct (Difflib.match_leb x y).
    + constructor; assumption.
    + constructor; [exact Cy | exact (IH Cl')].
Qed.

Lemma sort_sound (l : list Difflib.Match) :
  Forall (common_run a b) l -> Forall (common_run a b) (Difflib.sort l).
Proof.
  unfold Difflib.sort. induction 1 as [|x l Cx _ IH]; cbn [fold_right].
  - constructor.
  - apply insert_sorted_sound; assumption.
Qed.

Lemma collapse_sound (l : list Difflib.Match) :
  forall cur non_adjacent,
    common_run a b cur -> Forall (common_run a b) l ->
    Forall (common_run a b) non_adjacent ->
    Forall (common_run a b) (Difflib.collapse cur l non_adjacent).
Proof.
  induction l as [|[[i2 j2] k2] l IH]; intros [[i1 j1] k1] non_adjacent Cc Cl Cn;
    cbn [Difflib.collapse].
  - destruct (k1 =? 0); [exact Cn|].
    apply Forall_app. split; [exact Cn | constructor; [exact Cc | constructor]].
  - inversion Cl as [|? ? C2 Cl']; subst.
    destruct ((i1 + k1 =? i2) && (j1 + k1 =? j2)) eqn:G.
    + apply andb_true_iff in G. destruct G as [G1 G2].
      apply Z.eqb_eq in G1, G2. apply IH; [|exact Cl'|exact Cn].
      destruct Cc as [K1 [I1 [A1 [J1 [B1 D1]]]]].
      destruct C2 as [K2 [I2 [A2 [J2 [B2 D2]]]]].
      unfold common_run. repeat split; try lia.
      intros d Hd. destruct (Z_lt_le_dec d k1) as [Hlt | Hge].
      * apply D1. lia.
      * replace (i1 + d) with (i2 + (d - k1)) by lia.
        replace (j1 + d) with (j2 + (d - k1)) by lia. apply D2. lia.
    + apply IH; [exact C2 | exact Cl'|].
      destruct (k1 =? 0); [exact Cn|].
      apply Forall_app. split; [exact Cn | constructor; [exact Cc | constructor]].
Qed.

(** Every matching block is a run of characters that the two strings have
    in common, inside both strings. *)
Lemma get_matching_blocks_sound :
  Forall (common_run a b) (Difflib.get_matching_blocks a b).
Proof.
  unfold Difflib.get_matching_blocks.
  assert (L : 0 <= len a /\ 0 <= len b) by (unfold len; lia).
  apply Forall_app. split.
  - apply collapse_sound.
    + unfold common_run. repeat split; try lia.
    + apply sort_sound, matching_loop_sound; [|constructor].
      constructor; [unfold valid_item; lia | constructor].
    + constructor.
  - constructor; [|constructor]. unfold common_run. repeat split; try lia.
Qed.

Lemma matches_nonneg : 0 <= Difflib.matches a b.
Proof.
  unfold Difflib.matches.
  pose proof get_matching_blocks_sound as S.
  induction S as [|[[i j] k] l C _ IH]; cbn [fold_right snd]; [lia|].
  destruct C as [K _]. lia.
Qed.

End MatcherSound.










(** ** Image extraction *)

Lemma str_eqb_eq (s : pystr) : forall t, str_eqb s t = true <-> s = t.
Proof.
  induction s as [|c s IH]; intros [|d t]; simpl; split;
    try discriminate; try reflexivity.
  - rewrite andb_true_iff, Z.eqb_eq, IH. intros [-> ->]. reflexivity.
  - intros E. inversion E; subst. rewrite Z.eqb_refl.
    apply IH. reflexivity.
Qed.

Lemma find_in_None (name : pystr) :
  forall n, ~ has_tag name n -> find_in name n = None.
Proof.
  fix IH 1. intros [nm attrs children | s] H; simpl; [|reflexivity].
  destruct (str_eqb nm name) eqn:E.
  - apply str_eqb_eq in E. subst nm. exfalso. apply H. constructor.
  - assert (Hc : forall c, In c children -> ~ has_tag name c).
    { intros c Hin Hc. apply H. eapply has_tag_below; eassumption. }
    clear H E. induction children as [|c l IHl]; [reflexivity|].
    rewrite (IH c (Hc c (or_introl eq_refl))).
    apply IHl. intros c' Hin. apply Hc. right. exact Hin.
Qed.

Lemma find_None (name : pystr) (soup : list Node) :
  (forall n, In n soup -> ~ has_tag name n) -> find name soup = None.
Proof.
  induction soup as [|n soup IH]; intros H; simpl; [reflexivity|].
  rewrite (find_in_None name n (H n (or_introl eq_refl))).
  apply IH. intros n' Hin. apply H. right. exact Hin.
Qed.

Lemma tag_getitem_missing (key : pystr) (attrs : list (pystr * pystr)) :
  ~ has_key key attrs -> tag_getitem attrs key = Raise KeyError.
Proof.
  induction attrs as [|[k v] attrs IH]; intros H; simpl; [reflexivity|].
  destruct (str_eqb k key) eqn:E.
  - apply str_eqb_eq in E. subst k. exfalso. apply H. exists v. left. reflexivity.
  - apply IH. intros [v' Hin]. apply H. exists v'. right. exact Hin.
Qed.

Section ImageFacts.

Variable BeautifulSoup : pystr -> list Node.

(** C10. [get_entry_img_url] returns [None] for an entry with neither
    [content] nor [description], and for a body whose parse holds no [img]
    tag; when the first [img] tag of the body has no [src] attribute, the
    lookup [img_tag['src']] raises [KeyError]. *)
Theorem get_entry_img_url_partial (e : FeedEntry) :
  (content e = None -> description e = None ->
   get_entry_img_url BeautifulSoup e = Ok None)
  /\ (forall html, entry_html e = Some html ->
      (forall n, In n (BeautifulSoup html) -> ~ has_tag (str "img") n) ->
      get_entry_img_url BeautifulSoup e = Ok None)
  /\ (forall html img_tag, entry_html e = Some html -> html <> [] ->
      find (str "img") (BeautifulSoup html) = Some img_tag ->
      ~ has_key (str "src") img_tag ->
      get_entry_img_url BeautifulSoup e = Raise KeyError).
Proof.
  unfold get_entry_img_url, entry_html. split; [|split].
  - intros -> ->. reflexivity.
  - intros html E H.
    assert (F : find (str "img") (BeautifulSoup html) = None)
      by (apply find_None; exact H).
    destruct (content e) as [c|].
    + inversion E; subst. destruct html; [reflexivity|].
      cbn [truthy]. rewrite F. reflexivity.
    + destruct (description e) as [d|]; [|discriminate].
      inversion E; subst. destruct html; [reflexivity|].
      cbn [truthy]. rewrite F. reflexivity.
  - intros html img_tag E Hne F K.
    apply tag_getitem_missing in K.
    destruct (content e) as [c|].
    + inversion E; subst. destruct html; [contradiction|].
      cbn [truthy]. rewrite F, K. reflexivity.
    + destruct (description e) as [d|]; [|discriminate].
      inversion E; subst. destruct html; [contradiction|].
      cbn [truthy]. rewrite F, K. reflexivity.
Qed.

End ImageFacts.

Lemma get_entry_img_url_partial_witness :
  get_entry_img_url toy_soup entry_a = Ok None
  /\ get_entry_img_url toy_soup entry_no_img = Ok None
  /\ get_entry_img_url toy_soup entry_no_src = Raise KeyError.
Proof.
  split; [|split].
  - apply (get_entry_img_url_partial toy_soup entry_a); reflexivity.
  - destruct (get_entry_img_url_partial toy_soup entry_no_img) as [_ [H _]].
    apply (H (str "<p>No picture</p>")); [reflexivity|].
    intros n Hin Ht. vm_compute in Hin. destruct Hin as [<- | []].
    inversion Ht as [|? ? ? c Hc Hs]; subst.
    destruct Hc as [<- | []]. inversion Hs.
  - destruct (get_entry_img_url_partial toy_soup entry_no_src) as [_ [_ H]].
    apply (H (str "<p><img alt='logo'></p>") [(str "alt", str "logo")]).
    + reflexivity.
    + discriminate.
    + reflexivity.
    + intros [v [Hin | []]]. vm_compute in Hin. discriminate Hin.
Defined.

(** ** Message composition *)

Lemma len_app (s t : pystr) : len (s ++ t) = len s + len t.
Proof. unfold len. rewrite length_app. lia. Qed.

Lemma len_nonneg (s : pystr) : 0 <= len s.
Proof. unfold len. lia. Qed.

Lemma len_slice_to (s : pystr) (k : Z) :
  len (slice_to s k)
  = if k <? 0 then Z.max (len s + k) 0 else Z.min k (len s).
Proof.
  unfold slice_to, len. destruct (k <? 0) eqn:E.
  - apply Z.ltb_lt in E. rewrite length_firstn. lia.
  - apply Z.ltb_ge in E. rewrite length_firstn. lia.
Qed.

Lemma msg_text_title (t : pystr) :
  msg_text (setitem empty_msg (str "title") (Some t)) = t.
Proof. destruct t; reflexivity. Qed.

Lemma msg_text_title_summary (t s : pystr) :
  t <> [] -> s <> [] ->
  msg_text (setitem (setitem empty_msg (str "title") (Some t))
                    (str "summary") (Some s))
  = t ++ NL ++ s.
Proof. destruct t, s; try contradiction. reflexivity. Qed.

(** When the title fits and the summary does not, the message is the
    title, a newline, and the summary cut to [limit - len(title) - 4]
    characters (none when that is negative) followed by three dots. *)
Lemma compose_summary_cut (limit : Z) (e : FeedEntry) (s : pystr) :
  summary e = Some s -> title e <> [] -> s <> [] ->
  len (title e) <= limit -> limit < len (title e) + 1 + len s ->
  msg_text (compose limit e)
  = title e ++ NL
    ++ firstn (Z.to_nat (Z.max (limit - len (title e) - 4) 0)) s ++ ELLIPSIS
  /\ msg_length (compose limit e)
     = len (title e) + 4 + Z.max (limit - len (title e) - 4) 0.
Proof.
  intros Hs Ht Hn Hfit Hover.
  assert (T : msg_text (compose limit e)
              = title e ++ NL
                ++ firstn (Z.to_nat (Z.max (limit - len (title e) - 4) 0)) s
                ++ ELLIPSIS).
  { unfold compose. unfold msg_length at 1. rewrite msg_text_title.
    destruct (0 <? len (title e) - limit) eqn:E1;
      [apply Z.ltb_lt in E1; lia|].
    rewrite Hs. unfold msg_length.
    rewrite (msg_text_title_summary _ _ Ht Hn). rewrite !len_app.
    change (len NL) with 1.
    destruct (0 <? len (title e) + (1 + len s) - limit) eqn:E2;
      [|apply Z.ltb_ge in E2; lia].
    unfold slice_to.
    destruct (limit - (len (title e) + (1 + len s)) - 3 <? 0) eqn:E3;
      [|apply Z.ltb_ge in E3; lia].
    replace (Z.of_nat (length s) + (limit - (len (title e) + (1 + len s)) - 3))
      with (limit - len (title e) - 4) by (unfold len; lia).
    destruct (title e) as [|c t]; [contradiction|].
    destruct (firstn (Z.to_nat (Z.max (limit - len (c :: t) - 4) 0)) s);
      reflexivity. }
  split; [exact T|].
  unfold msg_length. rewrite T. rewrite !len_app.
  change (len NL) with 1. change (len ELLIPSIS) with 3.
  unfold len at 2. rewrite length_firstn. unfold len in *. lia.
Qed.

(** With four characters or more to spare after the title, a cut summary
    makes the message fill the limit exactly. *)
Lemma compose_summary_cut_fits (limit : Z) (e : FeedEntry) (s : pystr) :
  summary e = Some s -> title e <> [] -> s <> [] ->
  len (title e) + 4 <= limit -> limit < len (title e) + 1 + len s ->
  msg_length (compose limit e) = limit.
Proof.
  intros Hs Ht Hn Hfit Hover.
  destruct (compose_summary_cut limit e s Hs Ht Hn ltac:(lia) Hover) as [_ L].
  rewrite L. lia.
Qed.

(** With fewer than four characters to spare, the message is the title,
    a newline and three dots: four characters more than the title, which
    is more than the limit. *)
Lemma compose_summary_cut_overflows (limit : Z) (e : FeedEntry) (s : pystr) :
  summary e = Some s -> title e <> [] -> s <> [] ->
  limit - 4 < len (title e) <= limit -> limit < len (title e) + 1 + len s ->
  msg_text (compose limit e) = title e ++ NL ++ ELLIPSIS
  /\ limit < msg_length (compose limit e).
Proof.
  intros Hs Ht Hn Hfit Hover.
  destruct (compose_summary_cut limit e s Hs Ht Hn ltac:(lia) Hover) as [T L].
  split.
  - rewrite T. replace (Z.max (limit - len (title e) - 4) 0) with 0 by lia.
    reflexivity.
  - rewrite L. lia.
Qed.

(** A title longer than the limit is cut to [limit - 3] characters and
    three dots, the summary is left out, and the message fills the limit. *)
Lemma compose_title_cut (limit : Z) (e : FeedEntry) :
  3 <= limit -> limit < len (title e) ->
  compose limit e
  = setitem empty_msg (str "title")
      (Some (firstn (Z.to_nat (limit - 3)) (title e) ++ ELLIPSIS))
  /\ msg_length (compose limit e) = limit.
Proof.
  intros H3 Hover.
  assert (C : compose limit e
              = setitem empty_msg (str "title")
                  (Some (firstn (Z.to_nat (limit - 3)) (title e) ++ ELLIPSIS))).
  { unfold compose. unfold msg_length. rewrite msg_text_title.
    destruct (0 <? len (title e) - limit) eqn:E1;
      [|apply Z.ltb_ge in E1; lia].
    unfold slice_to. destruct (limit - 3 <? 0) eqn:E2;
      [apply Z.ltb_lt in E2; lia|]. reflexivity. }
  split; [exact C|].
  rewrite C. unfold msg_length. rewrite msg_text_title, len_app.
  change (len ELLIPSIS) with 3. unfold len in *. rewrite length_firstn. lia.
Qed.

(** C6. At an entry with a link, no image, a title of 116 characters and
    the summary "b", the limit is 116 and the composed message is the
    title, a newline and three dots: 120 characters. *)
Theorem compose_exceeds_limit :
  msg_limit entry_tight None = 116
  /\ msg_text (compose 116 entry_tight) = repeat 97 116 ++ NL ++ str "..."
  /\ msg_length (compose 116 entry_tight) = 120.
Proof. vm_compute. repeat split; reflexivity. Qed.

(** ** The monitor *)

Lemma check_for_existing_update_iff (h : pystr) (w : World) :
  fst (check_for_existing_update h w) = Ok true <-> stored h w.
Proof.
  unfold check_for_existing_update, stored. simpl. split.
  - intros E. inversion E as [E']. apply existsb_exists in E'.
    destruct E' as [r [Hin Hr]]. apply str_eqb_eq in Hr. eauto.
  - intros [r [Hin Hr]]. f_equal. apply existsb_exists.
    exists r. split; [exact Hin|]. apply str_eqb_eq. exact Hr.
Qed.

Lemma check_for_existing_update_false (h : pystr) (w : World) :
  ~ stored h w -> check_for_existing_update h w = (Ok false, w).
Proof.
  intros H. unfold check_for_existing_update.
  destruct (existsb _ (table w)) eqn:E; [|reflexivity].
  exfalso. apply H. apply check_for_existing_update_iff.
  unfold check_for_existing_update. simpl. rewrite E. reflexivity.
Qed.

Lemma keeps_table_ret {A} (a : A) : keeps_table (ret a).
Proof. intros w. reflexivity. Qed.

Lemma keeps_table_raise {A} (e : exn) : keeps_table (@raise A e).
Proof. intros w. reflexivity. Qed.

Lemma keeps_table_lift {A} (r : result A) : keeps_table (lift r).
Proof. intros w. reflexivity. Qed.

Lemma keeps_table_print (o : Output) : keeps_table (print o).
Proof. intros w. reflexivity. Qed.

Lemma keeps_table_bind {A B} (m : M A) (f : A -> M B) :
  keeps_table m -> (forall a, keeps_table (f a)) -> keeps_table (bind m f).
Proof.
  intros Hm Hf w. unfold bind. specialize (Hm w).
  destruct (m w) as [[a|e] w1]; simpl in *.
  - rewrite Hf. exact Hm.
  - exact Hm.
Qed.

Lemma keeps_table_except {A} (body handler : M A) :
  keeps_table body -> keeps_table handler ->
  keeps_table (except_TwitterHTTPError body handler).
Proof.
  intros Hb Hh w. unfold except_TwitterHTTPError. specialize (Hb w).
  destruct (body w) as [[a|[]] w1]; simpl in *; try exact Hb.
  rewrite Hh. exact Hb.
Qed.

Lemma keeps_table_for_each {A} (xs : list A) (body : A -> M unit) :
  (forall x, keeps_table (body x)) -> keeps_table (for_each xs body).
Proof.
  intros Hb. induction xs as [|x xs IH]; simpl.
  - apply keeps_table_ret.
  - apply keeps_table_bind; [apply Hb | intros _; exact IH].
Qed.

Create HintDb frame.
#[local] Hint Resolve keeps_table_ret keeps_table_raise keeps_table_lift
  keeps_table_print keeps_table_bind keeps_table_except
  keeps_table_for_each : frame.

Section MonitorFacts.

Variable faults : list Call -> Call -> option exn.
Variable BeautifulSoup : pystr -> list Node.

Local Open Scope py_scope.

Lemma keeps_table_request (c : Call) : keeps_table (request faults c).
Proof. intros w. unfold request. destruct (faults (calls w) c); reflexivity. Qed.

Lemma keeps_table_post (text : pystr) (img : option pystr) :
  keeps_table (post text img).
Proof. intros w. reflexivity. Qed.

Hint Resolve keeps_table_request keeps_table_post : frame.

Lemma keeps_table_tweet_plain (msg : OrderedDict) :
  keeps_table (tweet_plain faults msg).
Proof.
  unfold tweet_plain, statuses_update. auto 10 with frame.
Qed.

Hint Resolve keeps_table_tweet_plain : frame.

Lemma keeps_table_tweet_latest_update (e : FeedEntry) :
  keeps_table (tweet_latest_update faults BeautifulSoup e).
Proof.
  unfold tweet_latest_update, statuses_update_with_media.
  apply keeps_table_bind; [auto with frame|]. intros img_url.
  apply keeps_table_bind; [auto with frame|]. intros _.
  apply keeps_table_bind; [auto with frame|]. intros _.
  destruct (truthy img_url); [|auto with frame].
  destruct img_url as [src|]; auto 10 with frame.
Qed.

Lemma keeps_table_fan_out (send : pystr -> pystr -> M unit)
    (users : list pystr) (e : FeedEntry) :
  (forall u t, keeps_table (send u t)) -> keeps_table (fan_out send users e).
Proof.
  intros Hs. unfold fan_out.
  apply keeps_table_for_each. intros u. auto 10 with frame.
Qed.

Lemma keeps_table_send_dms (users : list pystr) (e : FeedEntry) :
  keeps_table (send_dm_to_feed_subscribed_users users e).
Proof.
  apply keeps_table_fan_out. intros u t. apply keeps_table_raise.
Qed.

Lemma keeps_table_try_body (users : list pystr) (e : FeedEntry) :
  keeps_table (try_body faults BeautifulSoup users e).
Proof.
  unfold try_body, reset_msg.
  apply keeps_table_bind; [apply keeps_table_tweet_latest_update|]. intros _.
  apply keeps_table_bind; [apply keeps_table_raise|]. intros _.
  apply keeps_table_send_dms.
Qed.

Lemma publish_and_record_concluded (users : list pystr) (e : FeedEntry) (h : pystr) (w : World) :
  rss_latest_sha256 e = Ok h ->
  publish_and_record faults BeautifulSoup users e w
  = (Ok tt, concluded e h (fst (try_body faults BeautifulSoup users e w))
             (snd (try_body faults BeautifulSoup users e w))).
Proof.
  intros Hh. unfold publish_and_record. fold (try_body faults BeautifulSoup users e).
  destruct (try_body faults BeautifulSoup users e w) as [[[]|x] w1]; unfold concluded;
    unfold bind, lift, print, latest_rss_entry_to_db, create_latest_rss_entry;
    rewrite Hh; reflexivity.
Qed.

(** An entry that is neither stored nor a duplicate goes straight to the
    [try] statement. *)
Lemma monitor_entry_new (users : list pystr) (e : FeedEntry) (h : pystr) (w : World) :
  rss_latest_sha256 e = Ok h -> ~ stored h w -> is_duplicate_update e w = false ->
  monitor_entry faults BeautifulSoup users e w
  = (Ok tt, concluded e h (fst (try_body faults BeautifulSoup users e w))
             (snd (try_body faults BeautifulSoup users e w))).
Proof.
  intros Hh Hs Hd. unfold monitor_entry. unfold bind at 1, lift. rewrite Hh.
  unfold bind at 1. rewrite (check_for_existing_update_false h w Hs).
  unfold bind. rewrite Hd. apply publish_and_record_concluded. exact Hh.
Qed.

(** C5. An entry whose fingerprint is already in the history table leaves
    the world as it was: no row added or deleted, no tweet posted or
    destroyed, no request made, nothing printed. *)
Theorem seen_entry_changes_nothing (users : list pystr) (e : FeedEntry) (h : pystr) (w : World) :
  rss_latest_sha256 e = Ok h -> stored h w ->
  monitor_entry faults BeautifulSoup users e w = (Ok tt, w).
Proof.
  intros Hh Hs. unfold monitor_entry. unfold bind at 1, lift. rewrite Hh.
  unfold bind. apply check_for_existing_update_iff in Hs.
  unfold check_for_existing_update in *. simpl in Hs. inversion Hs as [Hs'].
  rewrite Hs'. reflexivity.
Qed.

(** One turn of the loop of lines 167-170. *)
Lemma fan_out_cons (send : pystr -> pystr -> M unit)
    (u : pystr) (us : list pystr) (e : FeedEntry) (w : World) :
  fan_out send (u :: us) e w
  = match send u (dm_text e) (log_out (OutPrepareDM u) w) with
    | (Ok _, w') => fan_out send us e (log_out (OutSentDM u (dm_text e)) w')
    | (Raise x, w') => (Raise x, w')
    end.
Proof.
  unfold fan_out, dm_text. cbn [for_each]. unfold bind, print.
  destruct (send u (title e ++ NL ++ link e) (log_out (OutPrepareDM u) w))
    as [[[]|x] w']; reflexivity.
Qed.


(** With the class as it is, the look-up of [send_dm] fails for the first
    subscriber. *)
Lemma send_dms_raise (u : pystr) (rest : list pystr) (e : FeedEntry) (w : World) :
  send_dm_to_feed_subscribed_users (u :: rest) e w
  = (Raise AttributeError, log_out (OutPrepareDM u) w).
Proof.
  unfold send_dm_to_feed_subscribed_users. rewrite fan_out_cons. reflexivity.
Qed.

(** The [try] body never reaches the fan-out: it ends with the exception of
    the publish call or, when that call returns, with the [AttributeError]
    of [reset_msg]. *)
Lemma try_body_raises (users : list pystr) (e : FeedEntry) (w : World) :
  try_body faults BeautifulSoup users e w
  = match tweet_latest_update faults BeautifulSoup e w with
    | (Ok _, w1) => (Raise AttributeError, w1)
    | (Raise x, w1) => (Raise x, w1)
    end.
Proof.
  unfold try_body. unfold bind at 1.
  destruct (tweet_latest_update faults BeautifulSoup e w) as [[[]|x] w1]; reflexivity.
Qed.


End MonitorFacts.


Lemma seen_entry_changes_nothing_witness :
  monitor_entry no_faults toy_soup [str "alice"] entry_a world_after_a
  = (Ok tt, world_after_a).
Proof.
  apply (seen_entry_changes_nothing no_faults toy_soup [str "alice"] entry_a
           (fingerprint entry_a) world_after_a).
  - vm_compute. reflexivity.
  - exists (row_of entry_a). split; [left; reflexivity | reflexivity].
Defined.

(** C1. With [entry_a] recorded and tweeted, the next cycle sees the same
    item retitled "Release v1.2.1 now available": it is not stored and it
    is a duplicate of the last row. [monitor] destroys the latest tweet and
    then raises [TypeError] at [self.dbmanager.get_last_table_entry[1]]:
    the row is not deleted, nothing is printed, nothing is published and no
    row is inserted. *)
Theorem duplicate_entry_aborts :
  ~ stored (fingerprint entry_a_retitled) world_after_a
  /\ is_duplicate_update entry_a_retitled world_after_a = true
  /\ monitor no_faults toy_soup [entry_a_retitled] world_after_a
     = (Raise TypeError,
        {| table := [row_of entry_a];
           subscribed := [str "alice"];
           timeline := [ {| tweet_id := 1; status := str "Hello"; media := None |} ];
           next_id := 3;
           calls := [HomeTimeline 1; Destroy 2];
           stdout := [] |}).
Proof.
  split; [|split].
  - intros [r [[<- | []] E]]. vm_compute in E. discriminate E.
  - vm_compute. reflexivity.
  - vm_compute. reflexivity.
Qed.

(** C4. The retitled entry is not recorded by the cycle that meets it, so
    the next cycle meets it again, destroys one more tweet and stops at the
    same [TypeError]. *)
Theorem duplicate_entry_not_recorded :
  let cycle := monitor no_faults toy_soup [entry_a_retitled] in
  let w1 := snd (cycle world_after_a) in
  let w2 := snd (cycle w1) in
  table w1 = [row_of entry_a]
  /\ ~ stored (fingerprint entry_a_retitled) w1
  /\ fst (cycle w1) = Raise TypeError
  /\ table w2 = [row_of entry_a]
  /\ calls w2 = [HomeTimeline 1; Destroy 2; HomeTimeline 1; Destroy 1]
  /\ timeline w2 = [].
Proof.
  cbv zeta. split; [vm_compute; reflexivity|]. split.
  - intros [r [Hin E]]. vm_compute in Hin. destruct Hin as [<- | []].
    vm_compute in E. discriminate E.
  - vm_compute. repeat split; reflexivity.
Qed.

Section PublishFacts.

Variable faults : list Call -> Call -> option exn.
Variable BeautifulSoup : pystr -> list Node.

(** Whatever the platform answers, the duplicate branch ends in an
    exception before the row is deleted or anything is printed. *)
Lemma duplicate_branch_raises (users : list pystr) (e : FeedEntry) (h : pystr) (w : World) :
  rss_latest_sha256 e = Ok h -> ~ stored h w -> is_duplicate_update e w = true ->
  exists x w',
    monitor_entry faults BeautifulSoup users e w = (Raise x, w')
    /\ table w' = table w /\ stdout w' = stdout w.
Proof.
  intros Hh Hs Hd. unfold monitor_entry. unfold bind at 1, lift. rewrite Hh.
  unfold bind at 1. rewrite (check_for_existing_update_false h w Hs).
  unfold bind at 1. rewrite Hd.
  unfold delete_last_tweet, statuses_destroy, subscript_bound_method, raise.
  unfold bind, request.
  destruct (faults (calls w) (HomeTimeline 1)).
  - eexists; eexists; split; [reflexivity|]. split; reflexivity.
  - cbn [timeline log_call calls].
    destruct (timeline w) as [|last_tweet tl].
    + eexists; eexists; split; [reflexivity|]. split; reflexivity.
    + destruct (faults (calls w ++ [HomeTimeline 1]) (Destroy (tweet_id last_tweet)));
        eexists; eexists; (split; [reflexivity|]); split; reflexivity.
Qed.

(** An entry that is neither stored nor a duplicate is recorded whatever
    the [try] body does, and is stored from then on. *)
Lemma new_entry_recorded (users : list pystr) (e : FeedEntry) (h : pystr) (w : World) :
  rss_latest_sha256 e = Ok h -> ~ stored h w -> is_duplicate_update e w = false ->
  exists w',
    monitor_entry faults BeautifulSoup users e w = (Ok tt, w')
    /\ table w' = table w ++ [{| sha256_hash := h; date := get_latest_entry_date e;
                                 row_title := title e; url := link e |}]
    /\ stored h w'.
Proof.
  intros Hh Hs Hd.
  pose proof (monitor_entry_new faults BeautifulSoup users e h w Hh Hs Hd) as Hm.
  pose proof (keeps_table_try_body faults BeautifulSoup users e w) as Ht.
  eexists. split; [exact Hm|].
  assert (T : table (concluded e h (fst (try_body faults BeautifulSoup users e w))
                       (snd (try_body faults BeautifulSoup users e w)))
              = table w ++ [{| sha256_hash := h; date := get_latest_entry_date e;
                               row_title := title e; url := link e |}]).
  { unfold concluded. cbn [table log_out set_table]. rewrite Ht. reflexivity. }
  split; [exact T|].
  unfold stored. rewrite T. eexists. split.
  - apply in_or_app. right. left. reflexivity.
  - reflexivity.
Qed.

End PublishFacts.

(** ** The publish fallback chain *)

Lemma compose_fields (limit : Z) (e : FeedEntry) :
  exists vt vs, compose limit e = fields (Some vt) vs None None.
Proof.
  unfold compose.
  destruct (0 <? msg_length (setitem empty_msg (str "title") (Some (title e))) - limit).
  - eexists; eexists; reflexivity.
  - destruct (summary e) as [s|]; [|eexists; eexists; reflexivity].
    destruct (0 <? msg_length
               (setitem (setitem empty_msg (str "title") (Some (title e)))
                  (str "summary") (Some s)) - limit);
      eexists; eexists; reflexivity.
Qed.

Section FallbackFacts.

Variable faults : list Call -> Call -> option exn.
Variable BeautifulSoup : pystr -> list Node.

Lemma tweet_plain_outcome (msg : OrderedDict) (w : World) :
  outcome (tweet_plain faults msg w)
  = match faults (calls w) (Update (msg_text msg)) with
    | None => (Ok tt, calls w ++ [Update (msg_text msg)])
    | Some TwitterHTTPError =>
        (of_fault (faults (calls w ++ [Update (msg_text msg)])
                     (Update (msg_text (pop msg (str "summary"))))),
         (calls w ++ [Update (msg_text msg)])
         ++ [Update (msg_text (pop msg (str "summary")))])
    | Some x => (Raise x, calls w ++ [Update (msg_text msg)])
    end.
Proof.
  unfold tweet_plain, except_TwitterHTTPError, statuses_update, bind, request,
    post, print, outcome.
  destruct (faults (calls w) (Update (msg_text msg))) as [[]|]; try reflexivity.
  cbn [calls log_out log_call].
  destruct (faults (calls w ++ [Update (msg_text msg)])
              (Update (msg_text (pop msg (str "summary"))))); reflexivity.
Qed.

Lemma media_step (text src : pystr) (handler : M unit) (w0 : World) :
  except_TwitterHTTPError (statuses_update_with_media faults text src) handler w0
  = match faults (calls w0) (UpdateWithMedia text src) with
    | None =>
        (Ok tt,
         set_timeline
           ({| tweet_id := next_id w0; status := text; media := Some src |}
            :: timeline w0)
           (next_id w0 + 1) (log_call (UpdateWithMedia text src) w0))
    | Some TwitterHTTPError => handler (log_call (UpdateWithMedia text src) w0)
    | Some x => (Raise x, log_call (UpdateWithMedia text src) w0)
    end.
Proof.
  unfold except_TwitterHTTPError, statuses_update_with_media, bind, request, post.
  destruct (faults (calls w0) (UpdateWithMedia text src)) as [[]|]; reflexivity.
Qed.

End FallbackFacts.

(** ** What is requested *)

Lemma requests_only_silent {A} (P : Call -> bool) (m : M A) :
  (forall w, calls (snd (m w)) = calls w) -> requests_only P m.
Proof.
  intros H w. exists []. rewrite H, app_nil_r. split; reflexivity.
Qed.

Lemma requests_only_bind {A B} (P : Call -> bool) (m : M A) (f : A -> M B) :
  requests_only P m -> (forall a, requests_only P (f a)) ->
  requests_only P (bind m f).
Proof.
  intros Hm Hf w. unfold bind. specialize (Hm w).
  destruct (m w) as [[a|x] w1]; [|exact Hm].
  destruct Hm as [cs [Hc Hp]]. cbn [snd] in Hc.
  destruct (Hf a w1) as [cs' [Hc' Hp']].
  exists (cs ++ cs'). rewrite Hc', Hc, app_assoc. split; [reflexivity|].
  rewrite forallb_app, Hp, Hp'. reflexivity.
Qed.

Lemma requests_only_except {A} (P : Call -> bool) (body handler : M A) :
  requests_only P body -> requests_only P handler ->
  requests_only P (except_TwitterHTTPError body handler).
Proof.
  intros Hb Hh w. unfold except_TwitterHTTPError. specialize (Hb w).
  destruct (body w) as [[a|[]] w1]; try exact Hb.
  destruct Hb as [cs [Hc Hp]]. cbn [snd] in Hc.
  destruct (Hh w1) as [cs' [Hc' Hp']].
  exists (cs ++ cs'). rewrite Hc', Hc, app_assoc. split; [reflexivity|].
  rewrite forallb_app, Hp, Hp'. reflexivity.
Qed.

Lemma requests_only_for_each {A} (P : Call -> bool) (xs : list A) (body : A -> M unit) :
  (forall x, requests_only P (body x)) -> requests_only P (for_each xs body).
Proof.
  intros Hb. induction xs as [|x xs IH]; cbn [for_each].
  - apply requests_only_silent. reflexivity.
  - apply requests_only_bind; [apply Hb | intros _; exact IH].
Qed.

Lemma requests_only_choice {A} (P : Call -> bool) (c : World -> bool) (m1 m2 : M A) :
  requests_only P m1 -> requests_only P m2 ->
  requests_only P (fun w => if c w then m1 w else m2 w).
Proof.
  intros H1 H2 w. cbv beta. destruct (c w); [apply H1 | apply H2].
Qed.

Section RequestFacts.

Variable faults : list Call -> Call -> option exn.
Variable BeautifulSoup : pystr -> list Node.
Variable P : Call -> bool.

Lemma requests_only_request (c : Call) :
  P c = true -> requests_only P (request faults c).
Proof.
  intros Hc w. exists [c]. unfold request.
  destruct (faults (calls w) c); cbn [snd calls log_call forallb];
    rewrite Hc; split; reflexivity.
Qed.

Lemma requests_only_update (text : pystr) :
  P (Update text) = true -> requests_only P (statuses_update faults text).
Proof.
  intros Hc. unfold statuses_update.
  apply requests_only_bind; [apply requests_only_request; exact Hc|].
  intros _. apply requests_only_silent. reflexivity.
Qed.

Lemma requests_only_tweet_plain (msg : OrderedDict) :
  (forall text, P (Update text) = true) -> requests_only P (tweet_plain faults msg).
Proof.
  intros Hu. unfold tweet_plain.
  apply requests_only_except; [apply requests_only_update, Hu|].
  apply requests_only_bind; [apply requests_only_silent; reflexivity|]. intros _.
  apply requests_only_bind; [apply requests_only_silent; reflexivity|]. intros _.
  apply requests_only_update, Hu.
Qed.

(** The requests of [tweet_latest_update]: the fetch of the image, the post
    with media, whose text is always the four keys, and plain posts. *)
Lemma requests_only_tweet_latest_update (e : FeedEntry) :
  (forall text, P (Update text) = true) ->
  (forall src, P (UrlRetrieve src) = true) ->
  (forall src, P (UpdateWithMedia keys_text src) = true) ->
  requests_only P (tweet_latest_update faults BeautifulSoup e).
Proof.
  intros Hu Hf Hm. unfold tweet_latest_update.
  apply requests_only_bind; [apply requests_only_silent; reflexivity|].
  intros img_url. cbv beta zeta.
  destruct (compose_fields (msg_limit e img_url) e) as [vt [vs ->]].
  apply requests_only_bind; [apply requests_only_silent; reflexivity|]. intros _.
  apply requests_only_bind; [apply requests_only_silent; reflexivity|]. intros _.
  destruct (truthy img_url); [|apply requests_only_tweet_plain, Hu].
  destruct img_url as [src|]; [|apply requests_only_tweet_plain, Hu].
  apply requests_only_bind; [apply requests_only_request, Hf|]. intros _.
  apply requests_only_except.
  - unfold statuses_update_with_media.
    apply requests_only_bind; [apply requests_only_request, Hm|].
    intros _. apply requests_only_silent. reflexivity.
  - apply requests_only_bind; [apply requests_only_silent; reflexivity|]. intros _.
    apply requests_only_tweet_plain, Hu.
Qed.

Lemma requests_only_delete_last_tweet :
  P (HomeTimeline 1) = true -> (forall id, P (Destroy id) = true) ->
  requests_only P (delete_last_tweet faults).
Proof.
  intros Hh Hd. unfold delete_last_tweet.
  apply requests_only_bind; [apply requests_only_request, Hh|]. intros _ w.
  destruct (timeline w) as [|last_tweet tl].
  - exists []. rewrite app_nil_r. split; reflexivity.
  - revert w. change (requests_only P (statuses_destroy faults (tweet_id last_tweet))).
    unfold statuses_destroy.
    apply requests_only_bind; [apply requests_only_request, Hd|].
    intros _. apply requests_only_silent. reflexivity.
Qed.

Lemma requests_only_send_dms (users : list pystr) (e : FeedEntry) :
  requests_only P (send_dm_to_feed_subscribed_users users e).
Proof.
  unfold send_dm_to_feed_subscribed_users, fan_out, send_dm.
  apply requests_only_for_each. intros u.
  apply requests_only_bind; [apply requests_only_silent; reflexivity|]. intros _.
  apply requests_only_bind; [apply requests_only_silent; reflexivity|]. intros _.
  apply requests_only_silent. reflexivity.
Qed.

Lemma requests_only_monitor (entries : list FeedEntry) :
  (forall text, P (Update text) = true) ->
  (forall src, P (UrlRetrieve src) = true) ->
  (forall src, P (UpdateWithMedia keys_text src) = true) ->
  P (HomeTimeline 1) = true -> (forall id, P (Destroy id) = true) ->
  requests_only P (monitor faults BeautifulSoup entries).
Proof.
  intros Hu Hf Hm Hh Hd. unfold monitor.
  apply requests_only_bind; [apply requests_only_silent; reflexivity|].
  intros users. apply requests_only_for_each. intros e.
  unfold monitor_entry.
  apply requests_only_bind; [apply requests_only_silent; reflexivity|]. intros h.
  apply requests_only_bind; [apply requests_only_silent; reflexivity|].
  intros [|]; [apply requests_only_silent; reflexivity|].
  apply requests_only_bind.
  - apply requests_only_choice; [|apply requests_only_silent; reflexivity].
    apply requests_only_bind; [apply requests_only_delete_last_tweet; assumption|].
    intros _. apply requests_only_silent. reflexivity.
  - intros _ w. unfold publish_and_record.
    fold (try_body faults BeautifulSoup users e).
    assert (Ht : requests_only P (try_body faults BeautifulSoup users e)).
    { unfold try_body.
      apply requests_only_bind;
        [apply requests_only_tweet_latest_update; assumption|]. intros _.
      apply requests_only_bind; [apply requests_only_silent; reflexivity|].
      intros _. apply requests_only_send_dms. }
    destruct (Ht w) as [cs [Hc Hp]]. exists cs. split; [|exact Hp].
    rewrite <- Hc.
    destruct (try_body faults BeautifulSoup users e w) as [[[]|x] w1];
      unfold bind, lift, print, latest_rss_entry_to_db, create_latest_rss_entry;
      destruct (rss_latest_sha256 e); reflexivity.
Qed.

End RequestFacts.

(** C7. The entry has a title, a summary, a link and an image, and no
    request fails. The post with media is accepted and is the tweet of the
    entry, and its status text is the four keys of the message dict joined
    by newlines, not the composed message: line 110 joins [msg] where the
    plain posts join the non-empty values of [msg]. When the platform
    rejects the media post and the first plain post, the two plain posts do
    carry the composed fields, both followed by the image URL. And the text
    of a post with media is the four keys for every entry, parser and
    environment. *)
Theorem media_post_sends_dict_keys :
  (let r := tweet_latest_update no_faults toy_soup entry_img world_empty in
   get_entry_img_url toy_soup entry_img = Ok (Some (str "http://example.org/i.png"))
   /\ fst r = Ok tt
   /\ stdout (snd r)
      = [ OutLength 32;
          OutText (str "New build" ++ NL ++ str "Nightly build 7 is out") ]
   /\ calls (snd r)
      = [ UrlRetrieve (str "http://example.org/i.png");
          UpdateWithMedia (str "title" ++ NL ++ str "summary" ++ NL ++ str "url"
                           ++ NL ++ str "img_url")
                          (str "http://example.org/i.png") ]
   /\ timeline (snd r)
      = [ {| tweet_id := 1;
             status := str "title" ++ NL ++ str "summary" ++ NL ++ str "url"
                       ++ NL ++ str "img_url";
             media := Some (str "http://example.org/i.png") |} ])
  /\ (let r := tweet_latest_update reject_twice toy_soup entry_img world_empty in
      fst r = Ok tt
      /\ calls (snd r)
         = [ UrlRetrieve (str "http://example.org/i.png");
             UpdateWithMedia (str "title" ++ NL ++ str "summary" ++ NL ++ str "url"
                              ++ NL ++ str "img_url")
                             (str "http://example.org/i.png");
             Update (str "New build" ++ NL ++ str "Nightly build 7 is out" ++ NL
                     ++ str "http://example.org/b/7" ++ NL
                     ++ str "http://example.org/i.png");
             Update (str "New build" ++ NL ++ str "http://example.org/b/7" ++ NL
                     ++ str "http://example.org/i.png") ])
  /\ (forall faults BeautifulSoup e,
        requests_only media_text_is_keys
          (tweet_latest_update faults BeautifulSoup e)).
Proof.
  split; [|split].
  - vm_compute. repeat split; reflexivity.
  - vm_compute. repeat split; reflexivity.
  - intros faults BeautifulSoup e.
    apply requests_only_tweet_latest_update; intros; reflexivity.
Qed.

(** C3. [entry_a] is new and not a duplicate (the table is empty), alice,
    bob and carol are subscribed and no request fails. The entry is
    tweeted; then [self.tweetupdate.reset_msg()] raises [AttributeError],
    which the handler prints as an error while sending the tweet; the
    fan-out is not reached and nobody is sent a direct message; the entry is
    recorded and [monitor] returns normally. And whatever the entries, the
    parser and the environment, no cycle requests a direct message. *)
Theorem new_entry_sends_no_dm :
  (let r := monitor no_faults toy_soup [entry_a] world_empty in
   ~ stored (fingerprint entry_a) world_empty
   /\ is_duplicate_update entry_a world_empty = false
   /\ fst r = Ok tt
   /\ calls (snd r)
      = [ Update (str "Release v1.2.0 now available" ++ NL
                  ++ str "http://example.org/r/120") ]
   /\ stdout (snd r)
      = [ OutLength 28; OutText (str "Release v1.2.0 now available");
          OutError AttributeError; OutEntryUpdated ]
   /\ table (snd r) = [row_of entry_a]
   /\ ~ dm_sent_to_every_subscriber no_faults toy_soup
          [str "alice"; str "bob"; str "carol"] entry_a world_empty)
  /\ (forall faults BeautifulSoup entries,
        requests_only (fun c => negb (is_dm c))
          (monitor faults BeautifulSoup entries)).
Proof.
  split.
  - cbv zeta. split; [intros [r [[] _]]|].
    split; [reflexivity|].
    split; [vm_compute; reflexivity|].
    split; [vm_compute; reflexivity|].
    split; [vm_compute; reflexivity|].
    split; [vm_compute; reflexivity|].
    intros H. specialize (H (str "alice") (or_introl eq_refl)).
    vm_compute in H. destruct H as [H | []]. discriminate H.
  - intros faults BeautifulSoup entries.
    apply requests_only_monitor; intros; reflexivity.
Qed.

(** ** The examples of the specification *)

Example storm_contained :
  (Difflib.ratio (title entry_storm_updated) (str "Storm warning") < 3 # 4)%Q
  /\ is_duplicate_update entry_storm_updated world_storm = true.
Proof. vm_compute. split; reflexivity. Qed.

Example release_similar :
  contains (title entry_a_retitled) (title entry_a) = false
  /\ Difflib.ratio (title entry_a_retitled) (title entry_a) = (54 # 56)%Q
  /\ is_duplicate_update entry_a_retitled world_after_a = true.
Proof. vm_compute. repeat split; reflexivity. Qed.

Example unrelated_distinct :
  is_duplicate_update entry_unrelated world_after_a = false.
Proof. vm_compute. reflexivity. Qed.

(** Scenario A: empty history, one new entry, nobody subscribed. *)
Example scenario_new_entry :
  let r := monitor no_faults toy_soup [entry_a] world_after_a in
  let r0 := monitor no_faults toy_soup [entry_a]
              {| table := []; subscribed := []; timeline := []; next_id := 1;
                 calls := []; stdout := [] |} in
  fst r = Ok tt /\ snd r = world_after_a
  /\ fst r0 = Ok tt
  /\ table (snd r0) = [row_of entry_a]
  /\ calls (snd r0)
     = [ Update (str "Release v1.2.0 now available" ++ NL
                 ++ str "http://example.org/r/120") ]
  /\ stdout (snd r0)
     = [ OutLength 28; OutText (str "Release v1.2.0 now available");
         OutError AttributeError; OutEntryUpdated ].
Proof. vm_compute. repeat split; reflexivity. Qed.

(** * Further properties of the monitor *)

Lemma for_each_app {A} (xs ys : list A) (body : A -> M unit) (w : World) :
  for_each (xs ++ ys) body w
  = bind (for_each xs body) (fun _ => for_each ys body) w.
Proof.
  revert w. induction xs as [|x xs IH]; intros w.
  - reflexivity.
  - cbn [app for_each]. unfold bind.
    destruct (body x w) as [[[]|e] w1]; [|reflexivity].
    rewrite IH. reflexivity.
Qed.

Lemma for_each_unchanged {A} (xs : list A) (body : A -> M unit) (w : World) :
  (forall x, In x xs -> body x w = (Ok tt, w)) ->
  for_each xs body w = (Ok tt, w).
Proof.
  induction xs as [|x xs IH]; intros H.
  - reflexivity.
  - cbn [for_each]. unfold bind. rewrite (H x (or_introl eq_refl)).
    apply IH. intros y Hy. apply H. right. exact Hy.
Qed.

Lemma monitor_entry_seen
    (faults : list Call -> Call -> option exn) (BeautifulSoup : pystr -> list Node)
    (users : list pystr) (e : FeedEntry) (h : pystr) (w : World) :
  rss_latest_sha256 e = Ok h -> stored h w ->
  monitor_entry faults BeautifulSoup users e w = (Ok tt, w).
Proof.
  intros Hh Hs. unfold monitor_entry. unfold bind at 1, lift. rewrite Hh.
  unfold bind. apply check_for_existing_update_iff in Hs.
  unfold check_for_existing_update in *. simpl in Hs. inversion Hs as [Hs'].
  rewrite Hs'. reflexivity.
Qed.

Section CycleFacts.

Variable faults : list Call -> Call -> option exn.
Variable BeautifulSoup : pystr -> list Node.

Lemma duplicate_branch_calls (users : list pystr) (e : FeedEntry) (h : pystr) (w : World) :
  rss_latest_sha256 e = Ok h -> ~ stored h w -> is_duplicate_update e w = true ->
  exists x w',
    monitor_entry faults BeautifulSoup users e w = (Raise x, w')
    /\ table w' = table w /\ stdout w' = stdout w
    /\ (calls w' = calls w ++ [HomeTimeline 1]
        \/ exists last_tweet rest,
             timeline w = last_tweet :: rest
             /\ calls w' = calls w ++ [HomeTimeline 1; Destroy (tweet_id last_tweet)]).
Proof.
  intros Hh Hs Hd. unfold monitor_entry. unfold bind at 1, lift. rewrite Hh.
  unfold bind at 1. rewrite (check_for_existing_update_false h w Hs).
  unfold bind at 1. rewrite Hd.
  unfold delete_last_tweet, statuses_destroy, subscript_bound_method, raise.
  unfold bind, request.
  destruct (faults (calls w) (HomeTimeline 1)).
  - eexists; eexists; split; [reflexivity|]. repeat split. left. reflexivity.
  - cbn [timeline log_call calls].
    destruct (timeline w) as [|last_tweet tl].
    + eexists; eexists; split; [reflexivity|]. repeat split. left. reflexivity.
    + destruct (faults (calls w ++ [HomeTimeline 1]) (Destroy (tweet_id last_tweet)));
        eexists; eexists; (split; [reflexivity|]); repeat split;
        right; exists last_tweet, tl; cbn [calls log_call set_timeline];
        rewrite <- app_assoc; split; reflexivity.
Qed.

(** X1. Whatever the platform answers, a new entry that is classified a
    duplicate makes [monitor_entry] raise: the table and the output are as
    before, and the only requests made are the timeline read and, when the
    timeline is not empty, the destruction of its latest tweet. When both
    requests are accepted the exception is the [TypeError] of line 78. *)
Theorem duplicate_entry_always_raises
    (users : list pystr) (e : FeedEntry) (h : pystr) (w : World) :
  rss_latest_sha256 e = Ok h -> ~ stored h w -> is_duplicate_update e w = true ->
  exists x w',
    monitor_entry faults BeautifulSoup users e w = (Raise x, w')
    /\ table w' = table w /\ stdout w' = stdout w
    /\ (calls w' = calls w ++ [HomeTimeline 1]
        \/ exists last_tweet rest,
             timeline w = last_tweet :: rest
             /\ calls w' = calls w ++ [HomeTimeline 1; Destroy (tweet_id last_tweet)])
    /\ (forall last_tweet rest,
          timeline w = last_tweet :: rest ->
          faults (calls w) (HomeTimeline 1) = None ->
          faults (calls w ++ [HomeTimeline 1]) (Destroy (tweet_id last_tweet)) = None ->
          x = TypeError).
Proof.
  intros Hh Hs Hd.
  destruct (duplicate_branch_calls users e h w Hh Hs Hd) as [x [w' [Hm [Ht [Ho Hc]]]]].
  exists x, w'. repeat split; try assumption.
  intros last_tweet rest Htl F1 F2. revert Hm.
  unfold monitor_entry. unfold bind at 1, lift. rewrite Hh.
  unfold bind at 1. rewrite (check_for_existing_update_false h w Hs).
  unfold bind at 1. rewrite Hd.
  unfold delete_last_tweet, statuses_destroy, subscript_bound_method, raise.
  unfold bind, request. rewrite F1. cbn [timeline log_call calls].
  rewrite Htl, F2. intros E. inversion E. reflexivity.
Qed.

(** X2. One duplicate entry stops the cycle: when the entries older than
    it are all stored already, [monitor] raises at the duplicate, and
    whatever entries are newer in the feed, the table and the output are
    left as they were (none of the newer entries is published or
    recorded). *)
Theorem duplicate_blocks_newer_entries
    (newer older : list FeedEntry) (e : FeedEntry) (h : pystr) (w : World) :
  (forall o, In o older -> exists ho, rss_latest_sha256 o = Ok ho /\ stored ho w) ->
  rss_latest_sha256 e = Ok h -> ~ stored h w -> is_duplicate_update e w = true ->
  exists x w',
    monitor faults BeautifulSoup (newer ++ e :: older) w = (Raise x, w')
    /\ table w' = table w /\ stdout w' = stdout w.
Proof.
  intros Hold Hh Hs Hd.
  destruct (duplicate_branch_calls (subscribed w) e h w Hh Hs Hd)
    as [x [w' [Hm [Ht [Ho _]]]]].
  exists x, w'. split; [|split; assumption].
  unfold monitor. unfold bind at 1. unfold get_feed_subscribed_users.
  rewrite rev_app_distr. cbn [rev]. rewrite <- app_assoc.
  rewrite for_each_app. unfold bind at 1.
  rewrite for_each_unchanged.
  - cbn [app for_each]. unfold bind. rewrite Hm. reflexivity.
  - intros o Ho'. apply in_rev in Ho'.
    destruct (Hold o Ho') as [ho [E S]].
    apply (monitor_entry_seen faults BeautifulSoup (subscribed w) o ho w E S).
Qed.

(** X3. A cycle over a feed whose entries are all stored already returns
    normally and changes nothing. *)
Theorem all_seen_cycle_changes_nothing (entries : list FeedEntry) (w : World) :
  (forall o, In o entries -> exists ho, rss_latest_sha256 o = Ok ho /\ stored ho w) ->
  monitor faults BeautifulSoup entries w = (Ok tt, w).
Proof.
  intros H. unfold monitor. unfold bind at 1. unfold get_feed_subscribed_users.
  apply for_each_unchanged. intros o Ho. apply in_rev in Ho.
  destruct (H o Ho) as [ho [E S]].
  apply (monitor_entry_seen faults BeautifulSoup (subscribed w) o ho w E S).
Qed.

(** X4. An entry that is neither stored nor a duplicate is recorded by
    [monitor_entry] whether or not its publication succeeded, and from
    then on it is never processed again: in any later environment,
    [monitor_entry] on the same entry leaves the world as it finds it. *)
Theorem recorded_entry_not_retried
    (users : list pystr) (e : FeedEntry) (h : pystr) (w : World) :
  rss_latest_sha256 e = Ok h -> ~ stored h w -> is_duplicate_update e w = false ->
  exists w',
    monitor_entry faults BeautifulSoup users e w = (Ok tt, w')
    /\ (exists r, In r (table w') /\ sha256_hash r = h /\ row_title r = title e
                  /\ url r = link e /\ date r = get_latest_entry_date e)
    /\ forall faults' BeautifulSoup' users',
         monitor_entry faults' BeautifulSoup' users' e w' = (Ok tt, w').
Proof.
  intros Hh Hs Hd.
  pose proof (monitor_entry_new faults BeautifulSoup users e h w Hh Hs Hd) as Hm.
  eexists. split; [exact Hm|].
  assert (Hin : In {| sha256_hash := h; date := get_latest_entry_date e;
                      row_title := title e; url := link e |}
                   (table (concluded e h (fst (try_body faults BeautifulSoup users e w))
                             (snd (try_body faults BeautifulSoup users e w))))).
  { unfold concluded. cbn [table log_out set_table].
    apply in_or_app. right. left. reflexivity. }
  split.
  - eexists. split; [exact Hin|]. repeat split.
  - intros faults' BeautifulSoup' users'.
    apply (monitor_entry_seen faults' BeautifulSoup' users' e h _ Hh).
    eexists. split; [exact Hin | reflexivity].
Qed.

End CycleFacts.

Lemma duplicate_entry_always_raises_witness :
  exists w',
    monitor_entry no_faults toy_soup [str "alice"] entry_a_retitled world_after_a
    = (Raise TypeError, w')
    /\ table w' = table world_after_a.
Proof.
  destruct (duplicate_entry_always_raises no_faults toy_soup [str "alice"]
              entry_a_retitled (fingerprint entry_a_retitled) world_after_a)
    as [x [w' [Hm [Ht [_ [_ Hx]]]]]].
  - vm_compute. reflexivity.
  - intros [r [[<- | []] E]]. vm_compute in E. discriminate E.
  - vm_compute. reflexivity.
  - exists w'. rewrite (Hx _ _ eq_refl eq_refl eq_refl) in Hm.
    split; assumption.
Defined.

Lemma duplicate_blocks_newer_entries_witness :
  exists x w',
    monitor no_faults toy_soup [entry_unrelated; entry_a_retitled; entry_a]
      world_after_a = (Raise x, w')
    /\ table w' = table world_after_a /\ stdout w' = stdout world_after_a.
Proof.
  apply (duplicate_blocks_newer_entries no_faults toy_soup
           [entry_unrelated] [entry_a] entry_a_retitled
           (fingerprint entry_a_retitled) world_after_a).
  - intros o [<- | []]. exists (fingerprint entry_a). split.
    + vm_compute. reflexivity.
    + exists (row_of entry_a). split; [left; reflexivity | reflexivity].
  - vm_compute. reflexivity.
  - intros [r [[<- | []] E]]. vm_compute in E. discriminate E.
  - vm_compute. reflexivity.
Defined.

Lemma all_seen_cycle_changes_nothing_witness :
  monitor reject_updates toy_soup [entry_a; entry_a_with_summary] world_after_a
  = (Ok tt, world_after_a).
Proof.
  apply (all_seen_cycle_changes_nothing reject_updates toy_soup).
  intros o [<- | [<- | []]]; exists (fingerprint entry_a); split;
    try (vm_compute; reflexivity);
    exists (row_of entry_a); (split; [left; reflexivity | reflexivity]).
Defined.

Lemma recorded_entry_not_retried_witness :
  exists w',
    monitor_entry reject_updates toy_soup [str "alice"] entry_a world_empty
    = (Ok tt, w')
    /\ monitor_entry no_faults toy_soup [str "alice"] entry_a w' = (Ok tt, w').
Proof.
  destruct (recorded_entry_not_retried reject_updates toy_soup [str "alice"]
              entry_a (fingerprint entry_a) world_empty)
    as [w' [Hm [_ Hagain]]].
  - vm_compute. reflexivity.
  - intros [r [[] _]].
  - vm_compute. reflexivity.
  - exists w'. split; [exact Hm | apply Hagain].
Defined.

(** * Further properties of the fingerprint *)

Lemma utf8_char_scalar (c : Z) : is_scalar c -> exists bs, utf8_char c = Some bs.
Proof.
  unfold is_scalar, utf8_char. intros H.
  destruct (c <? 0) eqn:E0; [apply Z.ltb_lt in E0; lia|].
  destruct (c <? 128); [eauto|].
  destruct (c <? 2048); [eauto|].
  destruct (c <? 65536) eqn:E3.
  - destruct ((55296 <=? c) && (c <=? 57343)) eqn:E; [|eauto].
    apply andb_true_iff in E. destruct E as [E1 E2].
    apply Z.leb_le in E1. apply Z.leb_le in E2. lia.
  - apply Z.ltb_ge in E3.
    destruct (c <? 1114112) eqn:E4; [eauto|]. apply Z.ltb_ge in E4. lia.
Qed.

Lemma utf8_char_surrogate (c : Z) : is_surrogate c -> utf8_char c = None.
Proof.
  unfold is_surrogate, utf8_char. intros H.
  destruct (c <? 0); [reflexivity|].
  destruct (c <? 128) eqn:E1; [apply Z.ltb_lt in E1; lia|].
  destruct (c <? 2048) eqn:E2; [apply Z.ltb_lt in E2; lia|].
  destruct (c <? 65536) eqn:E3; [|apply Z.ltb_ge in E3; lia].
  destruct ((55296 <=? c) && (c <=? 57343)) eqn:E; [reflexivity|].
  apply andb_false_iff in E. destruct E as [E | E];
    [apply Z.leb_gt in E | apply Z.leb_gt in E]; lia.
Qed.

Lemma utf8_scalars (s : pystr) :
  (forall c, In c s -> is_scalar c) -> exists bs, utf8 s = Some bs.
Proof.
  induction s as [|c s IH]; intros H.
  - exists []. reflexivity.
  - destruct (utf8_char_scalar c (H c (or_introl eq_refl))) as [bs Hc].
    destruct IH as [rest Hr]; [intros d Hd; apply H; right; exact Hd|].
    exists (bs ++ rest). cbn [utf8]. rewrite Hc, Hr. reflexivity.
Qed.

Lemma utf8_with_surrogate (s : pystr) (c : Z) :
  In c s -> is_surrogate c -> utf8 s = None.
Proof.
  intros Hin Hs. induction s as [|d s IH]; [contradiction|].
  cbn [utf8]. destruct Hin as [-> | Hin].
  - rewrite (utf8_char_surrogate c Hs). reflexivity.
  - rewrite (IH Hin). destruct (utf8_char d); reflexivity.
Qed.

Lemma getitem_item_of (e : FeedEntry) : getitem_title_link (item_of e) = Ok e.
Proof. destruct e; reflexivity. Qed.

(** Without its title or its link, an item is not tweeted: [KeyError], with
    nothing printed and nothing requested. *)
Lemma tweet_latest_update_item_missing_key
    (faults : list Call -> Call -> option exn) (BeautifulSoup : pystr -> list Node)
    (item : FeedItem) (w : World) :
  item_title item = None \/ item_link item = None ->
  tweet_latest_update_item faults BeautifulSoup item w = (Raise KeyError, w).
Proof.
  intros H. unfold tweet_latest_update_item, bind, lift, getitem_title_link.
  destruct (item_title item) as [t|]; [|reflexivity].
  destruct (item_link item) as [l|]; [|reflexivity].
  destruct H; discriminate.
Qed.

(** On items that have a title and a link, the loop on items is [monitor]. *)
Lemma monitor_feed_item_of
    (faults : list Call -> Call -> option exn) (BeautifulSoup : pystr -> list Node)
    (entries : list FeedEntry) (w : World) :
  monitor_feed faults BeautifulSoup (map item_of entries) w
  = monitor faults BeautifulSoup entries w.
Proof.
  unfold monitor_feed, monitor, bind.
  destruct (get_feed_subscribed_users w) as [[users|x] w1]; [|reflexivity].
  rewrite <- map_rev. generalize (rev entries) as l. intros l. revert w1.
  induction l as [|e l IH]; intros w1; cbn [map for_each]; [reflexivity|].
  unfold bind. unfold monitor_item at 1. unfold bind at 1, lift.
  rewrite getitem_item_of.
  destruct (monitor_entry faults BeautifulSoup users e w1) as [[[]|x] w2];
    [apply IH | reflexivity].
Qed.

(** X5. An item without its title or its link makes line 66 raise
    [KeyError], outside the [try] statement, with the world untouched. An
    item that has both, and whose date, title or link holds a lone
    surrogate, cannot be fingerprinted: [rss_latest_sha256] raises
    [UnicodeEncodeError] and the loop body raises it too, before any
    request, with the world untouched. An item that has both and is made of
    encodable code points only always has a fingerprint. *)
Theorem unencodable_entry_aborts (item : FeedItem) :
  ((item_title item = None \/ item_link item = None) ->
   getitem_title_link item = Raise KeyError
   /\ forall faults BeautifulSoup users w,
        monitor_item faults BeautifulSoup users item w = (Raise KeyError, w))
  /\ (forall t l, item_title item = Some t -> item_link item = Some l ->
      exists e,
        getitem_title_link item = Ok e
        /\ title e = t /\ link e = l
        /\ published e = item_published item /\ updated e = item_updated item
        /\ ((exists c, In c (hashed_text e) /\ is_surrogate c) ->
            rss_latest_sha256 e = Raise UnicodeEncodeError
            /\ forall faults BeautifulSoup users w,
                 monitor_item faults BeautifulSoup users item w
                 = (Raise UnicodeEncodeError, w))
        /\ ((forall c, In c (hashed_text e) -> is_scalar c) ->
            exists h, rss_latest_sha256 e = Ok h)).
Proof.
  split.
  - intros H.
    assert (R : getitem_title_link item = Raise KeyError).
    { unfold getitem_title_link.
      destruct (item_title item) as [t|]; [|reflexivity].
      destruct (item_link item) as [l|]; [|reflexivity].
      destruct H; discriminate. }
    split; [exact R|]. intros faults BeautifulSoup users w.
    unfold monitor_item, bind, lift. rewrite R. reflexivity.
  - intros t l Ht Hl. eexists.
    assert (G : getitem_title_link item
                = Ok {| title := t; link := l;
                        published := item_published item;
                        updated := item_updated item;
                        summary := item_summary item;
                        content := item_content item;
                        description := item_description item |}).
    { unfold getitem_title_link. rewrite Ht, Hl. reflexivity. }
    split; [exact G|]. cbn [title link published updated].
    split; [reflexivity|]. split; [reflexivity|].
    split; [reflexivity|]. split; [reflexivity|]. split.
    + intros [c [Hin Hs]].
      match goal with |- rss_latest_sha256 ?e = _ /\ _ =>
        assert (R : rss_latest_sha256 e = Raise UnicodeEncodeError)
      end.
      { unfold rss_latest_sha256, encode_utf8.
        match goal with |- context [utf8 ?x] =>
          change x with (hashed_text
            {| title := t; link := l;
               published := item_published item;
               updated := item_updated item;
               summary := item_summary item;
               content := item_content item;
               description := item_description item |})
        end.
        rewrite (utf8_with_surrogate _ c Hin Hs). reflexivity. }
      split; [exact R|]. intros faults BeautifulSoup users w.
      unfold monitor_item. unfold bind at 1, lift. rewrite G.
      unfold monitor_entry. unfold bind at 1, lift. rewrite R. reflexivity.
    + intros H. destruct (utf8_scalars _ H) as [bs Hb].
      unfold rss_latest_sha256, encode_utf8.
      match goal with |- context [utf8 ?x] =>
        change x with (hashed_text
          {| title := t; link := l;
             published := item_published item;
             updated := item_updated item;
             summary := item_summary item;
             content := item_content item;
             description := item_description item |})
      end.
      rewrite Hb. eauto.
Qed.

Lemma unencodable_entry_aborts_witness :
  monitor_item no_faults toy_soup [str "alice"] item_no_link world_after_a
  = (Raise KeyError, world_after_a)
  /\ monitor_item no_faults toy_soup [str "alice"] (item_of entry_surrogate) world_after_a
     = (Raise UnicodeEncodeError, world_after_a)
  /\ exists e h,
       getitem_title_link (item_of entry_no_img) = Ok e /\ rss_latest_sha256 e = Ok h.
Proof.
  split; [|split].
  - apply (unencodable_entry_aborts item_no_link). right. reflexivity.
  - destruct (unencodable_entry_aborts (item_of entry_surrogate)) as [_ H].
    destruct (H (title entry_surrogate) (link entry_surrogate) eq_refl eq_refl)
      as [e [G [_ [_ [_ [_ [Hs _]]]]]]].
    inversion G; subst e. apply Hs.
    exists 55357. split; [|unfold is_surrogate; lia].
    vm_compute. right. do 56 right. left. reflexivity.
  - destruct (unencodable_entry_aborts (item_of entry_no_img)) as [_ H].
    destruct (H (title entry_no_img) (link entry_no_img) eq_refl eq_refl)
      as [e [G [_ [_ [_ [_ [_ Hs]]]]]]].
    exists e. inversion G; subst e.
    destruct Hs as [h Hh].
    + intros c Hin. vm_compute in Hin. unfold is_scalar.
      repeat (destruct Hin as [<- | Hin]; [lia|]). contradiction.
    + exists h. split; [reflexivity | exact Hh].
Defined.

Lemma hex_digit_char (d : Z) : 0 <= d < 16 -> is_hex_char (SHA256.hex_digit d).
Proof.
  unfold SHA256.hex_digit, is_hex_char. intros H.
  destruct (d <? 10) eqn:E; [apply Z.ltb_lt in E | apply Z.ltb_ge in E]; lia.
Qed.

Lemma hex_chars (bs : list Z) :
  Forall is_byte bs -> Forall is_hex_char (SHA256.hex bs).
Proof.
  induction 1 as [|b bs Hb _ IH]; [constructor|].
  unfold SHA256.hex in *. cbn [flat_map app]. unfold is_byte in Hb.
  constructor; [|constructor; [|exact IH]]; apply hex_digit_char.
  - split; [apply Z.div_pos; lia | apply Z.div_lt_upper_bound; lia].
  - apply Z.mod_pos_bound. lia.
Qed.

(** X6. A fingerprint is always 64 lower-case hexadecimal digits, and the
    prefix [[:10]] that the monitor prints has exactly 10 characters. *)
Theorem fingerprint_shape (e : FeedEntry) (h : pystr) :
  rss_latest_sha256 e = Ok h ->
  length h = 64%nat /\ Forall is_hex_char h /\ length (slice_to h 10) = 10%nat.
Proof.
  unfold rss_latest_sha256.
  destruct (encode_utf8 _) as [bs|x]; [|discriminate].
  intros E. inversion E; subst h. unfold SHA256.hexdigest.
  assert (L : length (SHA256.hex (SHA256.digest bs)) = 64%nat)
    by (rewrite hex_length, digest_length; reflexivity).
  split; [exact L|]. split.
  - apply hex_chars, digest_bytes.
  - unfold slice_to. cbn [Z.ltb Z.compare]. rewrite length_firstn, L. reflexivity.
Qed.

Lemma fingerprint_shape_witness :
  length (fingerprint entry_a) = 64%nat
  /\ Forall is_hex_char (fingerprint entry_a)
  /\ length (slice_to (fingerprint entry_a) 10) = 10%nat.
Proof.
  apply (fingerprint_shape entry_a). vm_compute. reflexivity.
Defined.

(** X7. The fingerprint reads the [published] date whenever the entry has
    one, so once an entry is stored, a later version of it with the same
    [published], title and link is taken as already seen and changes
    nothing, whatever its [updated] date, summary, content or
    description. *)
Theorem edited_entry_already_seen
    (faults : list Call -> Call -> option exn) (BeautifulSoup : pystr -> list Node)
    (users : list pystr) (e1 e2 : FeedEntry) (d h : pystr) (w : World) :
  published e1 = Some d -> published e2 = Some d ->
  title e2 = title e1 -> link e2 = link e1 ->
  rss_latest_sha256 e1 = Ok h -> stored h w ->
  get_latest_entry_date e2 = d
  /\ monitor_entry faults BeautifulSoup users e2 w = (Ok tt, w).
Proof.
  intros P1 P2 Ht Hl Hh Hs.
  assert (D2 : get_latest_entry_date e2 = d)
    by (unfold get_latest_entry_date; rewrite P2; reflexivity).
  split; [exact D2|].
  apply (monitor_entry_seen faults BeautifulSoup users e2 h w); [|exact Hs].
  rewrite <- Hh. unfold rss_latest_sha256. rewrite D2, Ht, Hl.
  unfold get_latest_entry_date. rewrite P1. reflexivity.
Qed.

Lemma edited_entry_already_seen_witness :
  monitor_entry no_faults toy_soup [str "alice"] entry_a_with_summary world_after_a
  = (Ok tt, world_after_a).
Proof.
  apply (edited_entry_already_seen no_faults toy_soup [str "alice"]
           entry_a entry_a_with_summary
           (str "Mon, 02 Nov 2026 10:00:00 GMT") (fingerprint entry_a) world_after_a).
  - reflexivity.
  - reflexivity.
  - reflexivity.
  - reflexivity.
  - vm_compute. reflexivity.
  - exists (row_of entry_a). split; [left; reflexivity | reflexivity].
Defined.

(** * Further properties of the duplicate detection *)

(** X8. [is_duplicate_update] reads the title of the entry and the title
    of the most recent row and nothing else: two entries with the same
    title, against two tables whose last rows have the same title, get the
    same answer, whatever the older rows and the other fields are. *)
Theorem duplicate_reads_titles_only
    (e1 e2 : FeedEntry) (w1 w2 : World) (t1 t2 : list HistoryRecord)
    (r1 r2 : HistoryRecord) :
  title e1 = title e2 ->
  table w1 = t1 ++ [r1] -> table w2 = t2 ++ [r2] -> row_title r1 = row_title r2 ->
  is_duplicate_update e1 w1 = is_duplicate_update e2 w2.
Proof.
  intros Ht H1 H2 Hr. unfold is_duplicate_update.
  rewrite (get_last_table_entry_app w1 t1 r1 H1).
  rewrite (get_last_table_entry_app w2 t2 r2 H2).
  rewrite Ht, Hr. reflexivity.
Qed.

Lemma contains_nil (s : pystr) : contains s [] = true.
Proof. destruct s; reflexivity. Qed.

Lemma startswith_refl (s : pystr) : startswith s s = true.
Proof.
  induction s as [|c s IH]; [reflexivity|].
  cbn [startswith]. rewrite Z.eqb_refl, IH. reflexivity.
Qed.

Lemma contains_refl (s : pystr) : contains s s = true.
Proof.
  destruct s as [|c s]; [reflexivity|].
  change (contains (c :: s) (c :: s))
    with (startswith (c :: s) (c :: s) || contains s (c :: s)).
  rewrite startswith_refl. reflexivity.
Qed.

(** X9. When the most recent row has an empty title, or the same title as
    the entry, an entry that is not stored yet is always classified a
    duplicate, and [monitor_entry] raises on it with the table left as it
    was: after such a row, every entry of that kind stops the cycle. *)
Theorem empty_or_equal_title_blocks
    (faults : list Call -> Call -> option exn) (BeautifulSoup : pystr -> list Node)
    (users : list pystr) (e : FeedEntry) (h : pystr) (w : World)
    (t : list HistoryRecord) (prev : HistoryRecord) :
  table w = t ++ [prev] ->
  row_title prev = [] \/ row_title prev = title e ->
  rss_latest_sha256 e = Ok h -> ~ stored h w ->
  is_duplicate_update e w = true
  /\ exists x w',
       monitor_entry faults BeautifulSoup users e w = (Raise x, w')
       /\ table w' = table w.
Proof.
  intros Ht Hp Hh Hs.
  assert (D : is_duplicate_update e w = true).
  { unfold is_duplicate_update. rewrite (get_last_table_entry_app w t prev Ht).
    destruct Hp as [-> | ->];
      [rewrite contains_nil | rewrite contains_refl]; reflexivity. }
  split; [exact D|].
  destruct (duplicate_branch_calls faults BeautifulSoup users e h w Hh Hs D)
    as [x [w' [Hm [Htab _]]]].
  exists x, w'. split; assumption.
Qed.

(** X10. An entry with an empty title is never a duplicate of a row whose
    title is not empty: the title is not contained in nothing, and the
    matcher finds no block, so the ratio is 0. *)
Theorem empty_title_not_duplicate
    (e : FeedEntry) (w : World) (t : list HistoryRecord) (prev : HistoryRecord) :
  title e = [] -> table w = t ++ [prev] -> row_title prev <> [] ->
  Difflib.matches [] (row_title prev) = 0
  /\ is_duplicate_update e w = false.
Proof.
  intros Ht Hw Hp.
  assert (M : Difflib.matches [] (row_title prev) = 0) by reflexivity.
  split; [exact M|].
  unfold is_duplicate_update. rewrite (get_last_table_entry_app w t prev Hw), Ht.
  destruct (row_title prev) as [|c s] eqn:E; [contradiction|].
  cbn [contains startswith orb].
  unfold Difflib.ratio. rewrite M.
  set (total := len [] + len (c :: s)).
  assert (P : 0 < total) by (unfold total, len; cbn [length]; lia).
  destruct (total =? 0) eqn:Z0; [apply Z.eqb_eq in Z0; lia|].
  assert (Q : Qle_bool (3 # 4) (2 * 0 # Z.to_pos total) = false).
  { unfold Qle_bool. cbn [Qnum Qden]. apply Z.leb_gt. lia. }
  rewrite Q. reflexivity.
Qed.

Lemma duplicate_reads_titles_only_witness :
  is_duplicate_update entry_a_retitled world_after_a
  = is_duplicate_update entry_a_retitled world_two_rows.
Proof.
  apply (duplicate_reads_titles_only entry_a_retitled entry_a_retitled
           world_after_a world_two_rows
           [] [ {| sha256_hash := str "00"; date := [];
                   row_title := str "Storm warning";
                   url := str "http://example.org/storm" |} ]
           (row_of entry_a) (row_of entry_a)); reflexivity.
Defined.

Lemma empty_or_equal_title_blocks_witness :
  is_duplicate_update entry_unrelated world_blank_title = true
  /\ exists x w',
       monitor_entry no_faults toy_soup [] entry_unrelated world_blank_title
       = (Raise x, w')
       /\ table w' = table world_blank_title.
Proof.
  apply (empty_or_equal_title_blocks no_faults toy_soup [] entry_unrelated
           (fingerprint entry_unrelated) world_blank_title []
           {| sha256_hash := str "00"; date := [];
              row_title := []; url := str "http://example.org/blank" |}).
  - reflexivity.
  - left. reflexivity.
  - vm_compute. reflexivity.
  - intros [r [[<- | []] E]]. vm_compute in E. discriminate E.
Defined.

Lemma empty_title_not_duplicate_witness :
  is_duplicate_update entry_untitled world_after_a = false.
Proof.
  apply (empty_title_not_duplicate entry_untitled world_after_a [] (row_of entry_a)).
  - reflexivity.
  - reflexivity.
  - discriminate.
Defined.

(** * Further properties of the message composition *)

Lemma msg_limit_range (e : FeedEntry) (img : option pystr) :
  91 <= msg_limit e img <= 140.
Proof.
  unfold msg_limit, TWEET_URL_LENGTH, TWEET_IMG_LENGTH.
  destruct (truthy (Some (link e))), (truthy img); lia.
Qed.

Lemma msg_length_title_le (t : pystr) (vs : option pystr) :
  len t <= msg_length (fields (Some t) vs None None).
Proof.
  unfold msg_length.
  destruct t as [|c t]; [apply len_nonneg|].
  destruct vs as [[|d s]|].
  - change (msg_text (fields (Some (c :: t)) (Some []) None None)) with (c :: t). lia.
  - change (msg_text (fields (Some (c :: t)) (Some (d :: s)) None None))
      with ((c :: t) ++ NL ++ (d :: s)).
    rewrite len_app. pose proof (len_nonneg (NL ++ d :: s)). lia.
  - change (msg_text (fields (Some (c :: t)) None None None)) with (c :: t). lia.
Qed.

Lemma compose_when_fits (limit : Z) (e : FeedEntry) :
  msg_length (fields (Some (title e)) (summary e) None None) <= limit ->
  compose limit e = fields (Some (title e)) (summary e) None None.
Proof.
  intros H. pose proof (msg_length_title_le (title e) (summary e)) as Ht.
  unfold compose. unfold msg_length at 1. rewrite msg_text_title.
  destruct (0 <? len (title e) - limit) eqn:E1; [apply Z.ltb_lt in E1; lia|].
  destruct (summary e) as [s|]; [|reflexivity].
  change (setitem (setitem empty_msg (str "title") (Some (title e)))
            (str "summary") (Some s))
    with (fields (Some (title e)) (Some s) None None).
  destruct (0 <? msg_length (fields (Some (title e)) (Some s) None None) - limit) eqn:E2;
    [apply Z.ltb_lt in E2; lia | reflexivity].
Qed.

(** X12. When the title and the summary (if any) joined by a newline fit
    the limit, [compose] alters nothing: the title and the summary are
    the entry's own, and the message is no longer than the limit. *)
Theorem compose_unchanged_when_fits (limit : Z) (e : FeedEntry) :
  msg_length (fields (Some (title e)) (summary e) None None) <= limit ->
  compose limit e = fields (Some (title e)) (summary e) None None
  /\ msg_length (compose limit e) <= limit.
Proof.
  intros H. rewrite (compose_when_fits limit e H). split; [reflexivity | exact H].
Qed.

Lemma compose_unchanged_when_fits_witness :
  compose 116 entry_img
  = fields (Some (str "New build")) (Some (str "Nightly build 7 is out")) None None.
Proof.
  apply (compose_unchanged_when_fits 116 entry_img). vm_compute. discriminate.
Defined.

Lemma compose_cut_untitled (limit : Z) (e : FeedEntry) (s : pystr) :
  3 <= limit -> title e = [] -> summary e = Some s -> limit < len s ->
  msg_length (compose limit e) = limit.
Proof.
  intros H3 Ht Hs Hover. unfold compose. rewrite Ht, Hs.
  change (msg_length (setitem empty_msg (str "title") (Some []))) with 0.
  destruct (0 <? 0 - limit) eqn:E1; [apply Z.ltb_lt in E1; lia|].
  destruct s as [|c s]; [unfold len in Hover; cbn [length] in Hover; lia|].
  change (msg_length (setitem (setitem empty_msg (str "title") (Some []))
                        (str "summary") (Some (c :: s))))
    with (len (c :: s)).
  destruct (0 <? len (c :: s) - limit) eqn:E2; [|apply Z.ltb_ge in E2; lia].
  unfold slice_to.
  destruct (limit - len (c :: s) - 3 <? 0) eqn:E3; [|apply Z.ltb_ge in E3; lia].
  replace (Z.of_nat (length (c :: s)) + (limit - len (c :: s) - 3))
    with (limit - 3) by (unfold len; lia).
  unfold msg_length.
  assert (T : msg_text
                (setitem (setitem (setitem empty_msg (str "title") (Some []))
                            (str "summary") (Some (c :: s)))
                   (str "summary")
                   (Some (firstn (Z.to_nat (Z.max (limit - 3) 0)) (c :: s) ++ ELLIPSIS)))
              = firstn (Z.to_nat (Z.max (limit - 3) 0)) (c :: s) ++ ELLIPSIS).
  { destruct (firstn (Z.to_nat (Z.max (limit - 3) 0)) (c :: s)); reflexivity. }
  transitivity (len (firstn (Z.to_nat (Z.max (limit - 3) 0)) (c :: s) ++ ELLIPSIS));
    [f_equal; exact T|].
  rewrite len_app. change (len ELLIPSIS) with 3.
  unfold len in *. rewrite length_firstn. lia.
Qed.

(** X11. For every entry, the composed title and summary either fit the
    limit that [tweet_latest_update] computes, or the title fits with
    fewer than four characters to spare and the message is the title plus
    four characters. In particular the message is never longer than the
    limit plus four. *)
Theorem compose_length_cases (e : FeedEntry) (img : option pystr) :
  let limit := msg_limit e img in
  (msg_length (compose limit e) <= limit
   \/ (limit - 4 < len (title e) <= limit
       /\ msg_length (compose limit e) = len (title e) + 4))
  /\ msg_length (compose limit e) <= limit + 4.
Proof.
  cbv zeta. pose proof (msg_limit_range e img) as R.
  set (limit := msg_limit e img) in *.
  assert (C : msg_length (compose limit e) <= limit
              \/ (limit - 4 < len (title e) <= limit
                  /\ msg_length (compose limit e) = len (title e) + 4)).
  { destruct (Z_lt_le_dec limit (len (title e))) as [Hover | Hfit].
    - left. destruct (compose_title_cut limit e ltac:(lia) Hover) as [_ L]. lia.
    - destruct (Z_le_gt_dec
                  (msg_length (fields (Some (title e)) (summary e) None None)) limit)
        as [Hall | Hcut].
      + left. rewrite (compose_when_fits limit e Hall). exact Hall.
      + destruct (summary e) as [s|] eqn:Hs.
        * destruct (title e) as [|c t] eqn:Et.
          -- left. destruct s as [|d s].
             ++ exfalso. revert Hcut.
                change (msg_length (fields (Some []) (Some []) None None)) with 0. lia.
             ++ rewrite (compose_cut_untitled limit e (d :: s)); try assumption; try lia.
                revert Hcut.
                change (msg_length (fields (Some []) (Some (d :: s)) None None))
                  with (len (d :: s)). lia.
          -- destruct s as [|d s].
             ++ exfalso. revert Hcut.
                change (msg_length (fields (Some (c :: t)) (Some []) None None))
                  with (len (c :: t)). lia.
             ++ assert (Hover : limit < len (title e) + 1 + len (d :: s)).
                { revert Hcut. rewrite Et.
                  change (msg_length (fields (Some (c :: t)) (Some (d :: s)) None None))
                    with (len ((c :: t) ++ NL ++ (d :: s))).
                  rewrite !len_app. change (len NL) with 1. lia. }
                destruct (compose_summary_cut limit e (d :: s) Hs
                            ltac:(rewrite Et; discriminate) ltac:(discriminate)
                            ltac:(rewrite Et; exact Hfit) Hover) as [_ L].
                rewrite Et in L.
                destruct (Z_le_gt_dec (len (c :: t) + 4) limit).
                ** left. lia.
                ** right. lia.
        * exfalso. revert Hcut. unfold msg_length.
          change (msg_text (fields (Some (title e)) None None None))
            with (msg_text (setitem empty_msg (str "title") (Some (title e)))).
          rewrite msg_text_title. lia. }
  split; [exact C|]. destruct C as [C | [C1 C2]]; lia.
Qed.

(** * Further properties of the publish chain *)

Lemma text_with_url_length (vt : pystr) (vs : option pystr) (l : pystr) :
  let room := if truthy (Some l) then 1 + len l else 0 in
  len (msg_text (fields (Some vt) vs (Some l) None))
  <= msg_length (fields (Some vt) vs None None) + room
  /\ len (msg_text (pop (fields (Some vt) vs (Some l) None) (str "summary")))
     <= msg_length (fields (Some vt) vs None None) + room.
Proof.
  cbv zeta. unfold msg_length.
  destruct vt as [|c t], vs as [[|d s]|], l as [|u l];
    cbn [truthy];
    match goal with
    | |- len (msg_text ?m1) <= len (msg_text ?m0) + _
         /\ len (msg_text ?m2) <= _ =>
        let t1 := eval vm_compute in (filter_bool (map snd m1)) in
        let t0 := eval vm_compute in (filter_bool (map snd m0)) in
        let t2 := eval vm_compute in (filter_bool (map snd m2)) in
        change (msg_text m1) with (join NL t1);
        change (msg_text m0) with (join NL t0);
        change (msg_text m2) with (join NL t2)
    end;
    cbn [join]; rewrite ?len_app; change (len NL) with 1;
    unfold len; cbn [length]; lia.
Qed.

(** The outcome of a publish attempt, seen from the timeline: it returned
    and the timeline has one tweet more, or it raised and the timeline is
    as before. *)
Lemma tweet_plain_posts (faults : list Call -> Call -> option exn)
    (msg : OrderedDict) (w : World) :
  (fst (tweet_plain faults msg w) = Ok tt
   /\ exists t, timeline (snd (tweet_plain faults msg w)) = t :: timeline w)
  \/ (exists x, fst (tweet_plain faults msg w) = Raise x
      /\ timeline (snd (tweet_plain faults msg w)) = timeline w).
Proof.
  unfold tweet_plain, except_TwitterHTTPError, statuses_update, bind, request,
    post, print.
  destruct (faults (calls w) (Update (msg_text msg))) as [[]|];
    try (right; eexists; split; reflexivity).
  - cbn [calls log_out log_call].
    destruct (faults (calls w ++ [Update (msg_text msg)])
                (Update (msg_text (pop msg (str "summary"))))).
    + right. eexists. split; reflexivity.
    + left. split; [reflexivity|]. eexists. reflexivity.
  - left. split; [reflexivity|]. eexists. reflexivity.
Qed.

Lemma tweet_plain_calls (faults : list Call -> Call -> option exn)
    (msg : OrderedDict) (w : World) :
  calls (snd (tweet_plain faults msg w)) = calls w ++ [Update (msg_text msg)]
  \/ calls (snd (tweet_plain faults msg w))
     = calls w ++ [Update (msg_text msg); Update (msg_text (pop msg (str "summary")))].
Proof.
  pose proof (f_equal snd (tweet_plain_outcome faults msg w)) as H.
  unfold outcome in H. cbn [snd] in H.
  destruct (faults (calls w) (Update (msg_text msg))) as [[]|];
    cbn [snd] in H; rewrite H; try (left; reflexivity).
  right. rewrite <- app_assoc. reflexivity.
Qed.

Section ChainFacts.

Variable faults : list Call -> Call -> option exn.
Variable BeautifulSoup : pystr -> list Node.

Lemma tweet_without_image (e : FeedEntry) (img : option pystr) (w : World) :
  get_entry_img_url BeautifulSoup e = Ok img -> truthy img = false ->
  tweet_latest_update faults BeautifulSoup e w
  = tweet_plain faults
      (setitem (compose (msg_limit e img) e) (str "url") (Some (link e)))
      (log_out (OutText (msg_text (compose (msg_limit e img) e)))
         (log_out (OutLength (msg_length (compose (msg_limit e img) e))) w)).
Proof.
  intros Himg Hno. unfold tweet_latest_update. unfold bind at 1, lift.
  rewrite Himg. unfold bind, print. rewrite Hno. reflexivity.
Qed.

(** X13. For an entry without image whose link has at most 23 characters
    and whose composed title and summary fit the limit, every status text
    that [tweet_latest_update] sends, the first plain post and its retry
    without summary, has at most 140 characters. *)
Theorem plain_tweet_within_140 (e : FeedEntry) (img : option pystr) (w : World) :
  get_entry_img_url BeautifulSoup e = Ok img -> truthy img = false ->
  len (link e) <= 23 ->
  msg_length (compose (msg_limit e img) e) <= msg_limit e img ->
  forall text,
    In (Update text) (calls (snd (tweet_latest_update faults BeautifulSoup e w))) ->
    In (Update text) (calls w) \/ len text <= 140.
Proof.
  intros Himg Hno Hlink Hfit text Hin.
  rewrite (tweet_without_image e img w Himg Hno) in Hin.
  destruct (compose_fields (msg_limit e img) e) as [vt [vs Hc]].
  rewrite Hc in Hin, Hfit.
  change (setitem (fields (Some vt) vs None None) (str "url") (Some (link e)))
    with (fields (Some vt) vs (Some (link e)) None) in Hin.
  pose proof (text_with_url_length vt vs (link e)) as [L1 L2]. cbv zeta in L1, L2.
  assert (B : msg_length (fields (Some vt) vs None None)
              + (if truthy (Some (link e)) then 1 + len (link e) else 0) <= 140).
  { revert Hfit. unfold msg_limit, TWEET_URL_LENGTH. rewrite Hno.
    destruct (truthy (Some (link e))); lia. }
  assert (Hor : forall c, In c (calls w ++ [Update (msg_text (fields (Some vt) vs (Some (link e)) None));
                                             Update (msg_text (pop (fields (Some vt) vs (Some (link e)) None) (str "summary")))]) ->
                          c = Update text -> In (Update text) (calls w) \/ len text <= 140).
  { intros c Hc' ->. apply in_app_or in Hc'. destruct Hc' as [Hc' | [Hc' | [Hc' | []]]].
    - left. exact Hc'.
    - right. injection Hc' as Ht. rewrite <- Ht.
      eapply Z.le_trans; [exact L1 | exact B].
    - right. injection Hc' as Ht. rewrite <- Ht.
      eapply Z.le_trans; [exact L2 | exact B]. }
  destruct (tweet_plain_calls faults (fields (Some vt) vs (Some (link e)) None)
              (log_out (OutText (msg_text (fields (Some vt) vs None None)))
                 (log_out (OutLength (msg_length (fields (Some vt) vs None None))) w)))
    as [E | E]; rewrite E in Hin; cbn [calls log_out] in Hin.
  - apply (Hor (Update text)); [|reflexivity].
    apply in_app_or in Hin. apply in_or_app.
    destruct Hin as [Hin | [Hin | []]]; [left; exact Hin | right; left; exact Hin].
  - apply (Hor (Update text)); [exact Hin | reflexivity].
Qed.

Lemma tweet_with_image (e : FeedEntry) (src : pystr) (w : World) :
  get_entry_img_url BeautifulSoup e = Ok (Some src) -> src <> [] ->
  let msg := setitem (compose (msg_limit e (Some src)) e) (str "url") (Some (link e)) in
  let w0 := log_out (OutText (msg_text (compose (msg_limit e (Some src)) e)))
              (log_out (OutLength (msg_length (compose (msg_limit e (Some src)) e))) w) in
  tweet_latest_update faults BeautifulSoup e w
  = bind (request faults (UrlRetrieve src))
      (fun _ =>
         except_TwitterHTTPError
           (statuses_update_with_media faults (join NL (keys msg)) src)
           (bind (print OutCannotTweetMedia)
              (fun _ => tweet_plain faults (setitem msg (str "img_url") (Some src)))))
      w0.
Proof.
  intros Himg Hsrc. cbv zeta.
  assert (Htr : truthy (Some src) = true)
    by (destruct src; [contradiction | reflexivity]).
  unfold tweet_latest_update. unfold bind at 1, lift. rewrite Himg.
  unfold bind at 1. unfold print at 1. unfold bind at 1. unfold print at 1.
  rewrite Htr. reflexivity.
Qed.

(** X14. When fetching the image raises, [tweet_latest_update] raises the
    same exception at once: the fetch is the only request made, no post is
    attempted (there is no fallback to a plain post) and the timeline is
    as before. *)
Theorem image_fetch_failure_no_post
    (e : FeedEntry) (src : pystr) (x : exn) (w : World) :
  get_entry_img_url BeautifulSoup e = Ok (Some src) -> src <> [] ->
  faults (calls w) (UrlRetrieve src) = Some x ->
  fst (tweet_latest_update faults BeautifulSoup e w) = Raise x
  /\ calls (snd (tweet_latest_update faults BeautifulSoup e w))
     = calls w ++ [UrlRetrieve src]
  /\ timeline (snd (tweet_latest_update faults BeautifulSoup e w)) = timeline w.
Proof.
  intros Himg Hsrc Hx. rewrite (tweet_with_image e src w Himg Hsrc).
  unfold bind, request. cbn [calls log_out]. rewrite Hx.
  repeat split.
Qed.

(** X15. Only a [TwitterHTTPError] moves the chain on. For an entry
    without image, any other exception of the first plain post is raised
    at once, after that single request and without the retry. *)
Theorem other_error_no_fallback
    (e : FeedEntry) (img : option pystr) (x : exn) (w : World) :
  get_entry_img_url BeautifulSoup e = Ok img -> truthy img = false ->
  x <> TwitterHTTPError ->
  let text :=
    msg_text (setitem (compose (msg_limit e img) e) (str "url") (Some (link e))) in
  faults (calls w) (Update text) = Some x ->
  fst (tweet_latest_update faults BeautifulSoup e w) = Raise x
  /\ calls (snd (tweet_latest_update faults BeautifulSoup e w))
     = calls w ++ [Update text]
  /\ timeline (snd (tweet_latest_update faults BeautifulSoup e w)) = timeline w.
Proof.
  intros Himg Hno Hx text Hf. rewrite (tweet_without_image e img w Himg Hno).
  subst text.
  unfold tweet_plain, except_TwitterHTTPError, statuses_update, bind, request.
  cbn [calls log_out]. rewrite Hf.
  destruct x; try contradiction; repeat split.
Qed.

Lemma compose_without_summary (limit : Z) (e : FeedEntry) :
  3 <= limit -> summary e = None \/ limit < len (title e) ->
  exists vt, compose limit e = fields (Some vt) None None None.
Proof.
  intros H3 [Hs | Hover].
  - unfold compose. rewrite Hs.
    destruct (0 <? _ - limit); eexists; reflexivity.
  - destruct (compose_title_cut limit e H3 Hover) as [C _].
    rewrite C. eexists. reflexivity.
Qed.

(** X16. When the composed message has no summary (the entry has none, or
    the title was cut), the retry after a rejected plain post sends the
    very same text again: the two requests are equal. So it is for an entry
    without image, whose first plain post is rejected, and for an entry
    with an image whose post with media was rejected before: there the
    repeated text ends with the image URL. *)
Theorem retry_repeats_text_without_summary
    (e : FeedEntry) (img : option pystr) (w : World) :
  get_entry_img_url BeautifulSoup e = Ok img ->
  summary e = None \/ msg_limit e img < len (title e) ->
  (truthy img = false ->
   let text :=
     msg_text (setitem (compose (msg_limit e img) e) (str "url") (Some (link e))) in
   faults (calls w) (Update text) = Some TwitterHTTPError ->
   calls (snd (tweet_latest_update faults BeautifulSoup e w))
   = calls w ++ [Update text; Update text])
  /\ (forall src, img = Some src -> src <> [] ->
      let text :=
        msg_text (setitem (setitem (compose (msg_limit e img) e)
                             (str "url") (Some (link e)))
                    (str "img_url") (Some src)) in
      let fetch := UrlRetrieve src in
      let with_media := UpdateWithMedia keys_text src in
      faults (calls w) fetch = None ->
      faults (calls w ++ [fetch]) with_media = Some TwitterHTTPError ->
      faults (calls w ++ [fetch; with_media]) (Update text) = Some TwitterHTTPError ->
      calls (snd (tweet_latest_update faults BeautifulSoup e w))
      = calls w ++ [fetch; with_media; Update text; Update text]).
Proof.
  intros Himg Hs.
  pose proof (msg_limit_range e img) as R.
  destruct (compose_without_summary (msg_limit e img) e ltac:(lia) Hs) as [vt Hc].
  split.
  - intros Hno text Hf. rewrite (tweet_without_image e img w Himg Hno).
    pose proof (f_equal snd (tweet_plain_outcome faults
      (setitem (compose (msg_limit e img) e) (str "url") (Some (link e)))
      (log_out (OutText (msg_text (compose (msg_limit e img) e)))
         (log_out (OutLength (msg_length (compose (msg_limit e img) e))) w)))) as H.
    subst text.
    unfold outcome in H. cbn [snd calls log_out] in H.
    rewrite Hf in H. cbn [snd] in H. rewrite H. rewrite <- app_assoc. cbn [app].
    assert (T : msg_text (pop (setitem (compose (msg_limit e img) e) (str "url")
                                 (Some (link e))) (str "summary"))
                = msg_text (setitem (compose (msg_limit e img) e) (str "url")
                              (Some (link e)))).
    { rewrite Hc. destruct vt, (link e); reflexivity. }
    rewrite T. reflexivity.
  - intros src Esrc Hsrc text fetch with_media Hfetch Hmedia Hplain.
    subst img text fetch with_media.
    rewrite (tweet_with_image e src w Himg Hsrc). cbv zeta.
    rewrite Hc in *.
    change (join NL (keys (setitem (fields (Some vt) None None None) (str "url")
                             (Some (link e)))))
      with keys_text.
    set (msg := setitem (setitem (fields (Some vt) None None None) (str "url")
                           (Some (link e))) (str "img_url") (Some src)) in *.
    set (w0 := log_out (OutText (msg_text (fields (Some vt) None None None)))
                 (log_out (OutLength (msg_length (fields (Some vt) None None None))) w)).
    unfold bind at 1. unfold request at 1.
    change (calls w0) with (calls w). rewrite Hfetch.
    rewrite media_step.
    change (calls (log_call (UrlRetrieve src) w0)) with (calls w ++ [UrlRetrieve src]).
    rewrite Hmedia. unfold bind, print.
    pose proof (f_equal snd (tweet_plain_outcome faults msg
      (log_out OutCannotTweetMedia
         (log_call (UpdateWithMedia keys_text src)
            (log_call (UrlRetrieve src) w0))))) as H.
    unfold outcome in H. cbn [snd] in H.
    change (calls (log_out OutCannotTweetMedia
                     (log_call (UpdateWithMedia keys_text src)
                        (log_call (UrlRetrieve src) w0))))
      with ((calls w ++ [UrlRetrieve src]) ++ [UpdateWithMedia keys_text src]) in H.
    rewrite <- app_assoc in H. cbn [app] in H.
    rewrite Hplain in H. cbn [snd] in H. rewrite H.
    assert (T : msg_text (pop msg (str "summary")) = msg_text msg).
    { subst msg. destruct vt, (link e), src; reflexivity. }
    rewrite T. rewrite <- !app_assoc. reflexivity.
Qed.

(** X25. The whole publish chain, as requests. Without image: the plain
    post of the non-empty fields; if the platform rejects it
    ([TwitterHTTPError]), the plain post without the summary, whose answer
    is final; any other exception of the first post is raised at once.
    With an image: the fetch, whose exception is raised at once; then the
    post with media, whose text is the four keys; if the platform rejects
    it, the plain post of the non-empty fields followed by the image URL,
    and on its rejection the same without the summary, whose answer is
    final; any other exception of a post is raised at once. No other
    request is made. *)
Theorem publish_chain_outcome (e : FeedEntry) (img : option pystr) (w : World) :
  get_entry_img_url BeautifulSoup e = Ok img ->
  let msg := setitem (compose (msg_limit e img) e) (str "url") (Some (link e)) in
  (truthy img = false ->
   let plain := Update (msg_text msg) in
   let bare := Update (msg_text (pop msg (str "summary"))) in
   outcome (tweet_latest_update faults BeautifulSoup e w)
   = match faults (calls w) plain with
     | None => (Ok tt, calls w ++ [plain])
     | Some TwitterHTTPError =>
         (of_fault (faults (calls w ++ [plain]) bare), calls w ++ [plain; bare])
     | Some x => (Raise x, calls w ++ [plain])
     end)
  /\ (forall src, img = Some src -> src <> [] ->
      let fetch := UrlRetrieve src in
      let with_media := UpdateWithMedia keys_text src in
      let plain := Update (msg_text (setitem msg (str "img_url") (Some src))) in
      let bare :=
        Update (msg_text (pop (setitem msg (str "img_url") (Some src))
                            (str "summary"))) in
      outcome (tweet_latest_update faults BeautifulSoup e w)
      = match faults (calls w) fetch with
        | Some x => (Raise x, calls w ++ [fetch])
        | None =>
            match faults (calls w ++ [fetch]) with_media with
            | None => (Ok tt, calls w ++ [fetch; with_media])
            | Some TwitterHTTPError =>
                match faults (calls w ++ [fetch; with_media]) plain with
                | None => (Ok tt, calls w ++ [fetch; with_media; plain])
                | Some TwitterHTTPError =>
                    (of_fault (faults (calls w ++ [fetch; with_media; plain]) bare),
                     calls w ++ [fetch; with_media; plain; bare])
                | Some x => (Raise x, calls w ++ [fetch; with_media; plain])
                end
            | Some x => (Raise x, calls w ++ [fetch; with_media])
            end
        end).
Proof.
  intros Himg msg. split.
  - intros Hno plain bare. subst plain bare msg.
    rewrite (tweet_without_image e img w Himg Hno), tweet_plain_outcome.
    cbn [calls log_out].
    destruct (faults (calls w) _) as [[]|]; try reflexivity.
    rewrite <- app_assoc. reflexivity.
  - intros src Esrc Hsrc fetch with_media plain bare.
    subst img fetch with_media plain bare msg.
    rewrite (tweet_with_image e src w Himg Hsrc). cbv zeta.
    destruct (compose_fields (msg_limit e (Some src)) e) as [vt [vs Hc]].
    rewrite Hc.
    change (join NL (keys (setitem (fields (Some vt) vs None None) (str "url")
                             (Some (link e)))))
      with keys_text.
    set (msg := setitem (setitem (fields (Some vt) vs None None) (str "url")
                           (Some (link e))) (str "img_url") (Some src)).
    set (w0 := log_out (OutText (msg_text (fields (Some vt) vs None None)))
                 (log_out (OutLength (msg_length (fields (Some vt) vs None None))) w)).
    unfold bind at 1. unfold request at 1.
    change (calls w0) with (calls w).
    destruct (faults (calls w) (UrlRetrieve src)) as [x|]; [reflexivity|].
    rewrite media_step.
    change (calls (log_call (UrlRetrieve src) w0)) with (calls w ++ [UrlRetrieve src]).
    destruct (faults (calls w ++ [UrlRetrieve src]) (UpdateWithMedia keys_text src))
      as [[]|];
      try (unfold outcome; cbn [fst snd calls set_timeline log_call];
           change (calls w0) with (calls w); rewrite <- app_assoc; reflexivity).
    unfold bind, print. rewrite tweet_plain_outcome.
    change (calls (log_out OutCannotTweetMedia
                     (log_call (UpdateWithMedia keys_text src)
                        (log_call (UrlRetrieve src) w0))))
      with ((calls w ++ [UrlRetrieve src]) ++ [UpdateWithMedia keys_text src]).
    rewrite <- !app_assoc. cbn [app].
    destruct (faults (calls w ++ [UrlRetrieve src; UpdateWithMedia keys_text src])
                (Update (msg_text msg))) as [[]|]; reflexivity.
Qed.

(** X22. [tweet_latest_update] returns normally exactly when it has added
    one tweet to the timeline, and raises exactly when it has added none:
    whatever the environment answers, it never posts twice and never
    returns without having posted. It never touches the history table. *)
Theorem tweet_posts_exactly_once_or_raises (e : FeedEntry) (w : World) :
  ((fst (tweet_latest_update faults BeautifulSoup e w) = Ok tt
    /\ exists t, timeline (snd (tweet_latest_update faults BeautifulSoup e w))
                 = t :: timeline w)
   \/ (exists x, fst (tweet_latest_update faults BeautifulSoup e w) = Raise x
       /\ timeline (snd (tweet_latest_update faults BeautifulSoup e w)) = timeline w))
  /\ table (snd (tweet_latest_update faults BeautifulSoup e w)) = table w.
Proof.
  split; [|apply keeps_table_tweet_latest_update].
  destruct (get_entry_img_url BeautifulSoup e) as [img|x] eqn:Himg.
  - destruct (truthy img) eqn:Htr.
    + destruct img as [src|]; [|discriminate].
      assert (Hsrc : src <> []) by (intros ->; discriminate).
      rewrite (tweet_with_image e src w Himg Hsrc). cbv zeta.
      unfold bind, request. cbn [calls log_out].
      destruct (faults (calls w) (UrlRetrieve src)).
      * right. eexists. split; reflexivity.
      * rewrite media_step.
        match goal with
        | |- context [faults ?tr (UpdateWithMedia ?t src)] =>
            destruct (faults tr (UpdateWithMedia t src)) as [[]|]
        end; try (right; eexists; split; reflexivity).
        -- unfold print. cbv beta iota.
           match goal with
           | |- context [tweet_plain faults ?m ?w1] =>
               destruct (tweet_plain_posts faults m w1) as [[H1 [t H2]] | [x [H1 H2]]]
           end.
           ++ left. split; [exact H1|]. exists t. rewrite H2. reflexivity.
           ++ right. exists x. split; [exact H1|]. rewrite H2. reflexivity.
        -- left. split; [reflexivity|]. eexists. reflexivity.
    + rewrite (tweet_without_image e img w Himg Htr).
      match goal with
      | |- context [tweet_plain faults ?m ?w1] =>
          destruct (tweet_plain_posts faults m w1) as [[H1 [t H2]] | [x [H1 H2]]]
      end.
      * left. split; [exact H1|]. exists t. rewrite H2. reflexivity.
      * right. exists x. split; [exact H1|]. rewrite H2. reflexivity.
  - right. exists x. unfold tweet_latest_update. unfold bind at 1, lift.
    rewrite Himg. split; reflexivity.
Qed.

End ChainFacts.

Lemma plain_tweet_within_140_witness :
  In (Update (str "Text" ++ NL ++ str "http://example.org/text")) (calls world_empty)
  \/ len (str "Text" ++ NL ++ str "http://example.org/text") <= 140.
Proof.
  apply (plain_tweet_within_140 no_faults toy_soup entry_no_img None world_empty).
  - vm_compute. reflexivity.
  - reflexivity.
  - vm_compute. discriminate.
  - vm_compute. discriminate.
  - vm_compute. left. reflexivity.
Defined.

Lemma image_fetch_failure_no_post_witness :
  fst (tweet_latest_update fetch_fails toy_soup entry_img world_empty) = Raise URLError
  /\ calls (snd (tweet_latest_update fetch_fails toy_soup entry_img world_empty))
     = calls world_empty ++ [UrlRetrieve (str "http://example.org/i.png")]
  /\ timeline (snd (tweet_latest_update fetch_fails toy_soup entry_img world_empty))
     = timeline world_empty.
Proof.
  apply (image_fetch_failure_no_post fetch_fails toy_soup entry_img
           (str "http://example.org/i.png") URLError world_empty).
  - vm_compute. reflexivity.
  - discriminate.
  - reflexivity.
Defined.

Lemma other_error_no_fallback_witness :
  fst (tweet_latest_update network_down toy_soup entry_a world_empty) = Raise URLError
  /\ calls (snd (tweet_latest_update network_down toy_soup entry_a world_empty))
     = calls world_empty
       ++ [Update (msg_text (setitem (compose (msg_limit entry_a None) entry_a)
                               (str "url") (Some (link entry_a))))]
  /\ timeline (snd (tweet_latest_update network_down toy_soup entry_a world_empty))
     = timeline world_empty.
Proof.
  apply (other_error_no_fallback network_down toy_soup entry_a None URLError world_empty).
  - vm_compute. reflexivity.
  - reflexivity.
  - discriminate.
  - reflexivity.
Defined.

Lemma retry_repeats_text_without_summary_witness :
  calls (snd (tweet_latest_update reject_updates toy_soup entry_a world_empty))
  = [ Update (str "Release v1.2.0 now available" ++ NL
              ++ str "http://example.org/r/120");
      Update (str "Release v1.2.0 now available" ++ NL
              ++ str "http://example.org/r/120") ]
  /\ calls (snd (tweet_latest_update reject_updates toy_soup entry_img_bare world_empty))
     = [ UrlRetrieve (str "http://example.org/i.png");
         UpdateWithMedia keys_text (str "http://example.org/i.png");
         Update (str "New build" ++ NL ++ str "http://example.org/b/7" ++ NL
                 ++ str "http://example.org/i.png");
         Update (str "New build" ++ NL ++ str "http://example.org/b/7" ++ NL
                 ++ str "http://example.org/i.png") ].
Proof.
  split.
  - destruct (retry_repeats_text_without_summary reject_updates toy_soup entry_a None
                world_empty) as [H _].
    + vm_compute. reflexivity.
    + left. reflexivity.
    + rewrite H; [|reflexivity|reflexivity]. vm_compute. reflexivity.
  - destruct (retry_repeats_text_without_summary reject_updates toy_soup entry_img_bare
                (Some (str "http://example.org/i.png")) world_empty) as [_ H].
    + vm_compute. reflexivity.
    + left. reflexivity.
    + rewrite (H (str "http://example.org/i.png"));
        [|reflexivity|discriminate|reflexivity|reflexivity|reflexivity].
      vm_compute. reflexivity.
Defined.

Lemma publish_chain_outcome_witness :
  outcome (tweet_latest_update reject_twice toy_soup entry_img world_empty)
  = (Ok tt,
     [ UrlRetrieve (str "http://example.org/i.png");
       UpdateWithMedia keys_text (str "http://example.org/i.png");
       Update (str "New build" ++ NL ++ str "Nightly build 7 is out" ++ NL
               ++ str "http://example.org/b/7" ++ NL
               ++ str "http://example.org/i.png");
       Update (str "New build" ++ NL ++ str "http://example.org/b/7" ++ NL
               ++ str "http://example.org/i.png") ])
  /\ outcome (tweet_latest_update network_down toy_soup entry_a world_empty)
     = (Raise URLError,
        [ Update (str "Release v1.2.0 now available" ++ NL
                  ++ str "http://example.org/r/120") ]).
Proof.
  split.
  - destruct (publish_chain_outcome reject_twice toy_soup entry_img
                (Some (str "http://example.org/i.png")) world_empty) as [_ H].
    + vm_compute. reflexivity.
    + rewrite (H (str "http://example.org/i.png")); [|reflexivity|discriminate].
      vm_compute. reflexivity.
  - destruct (publish_chain_outcome network_down toy_soup entry_a None world_empty)
      as [H _].
    + vm_compute. reflexivity.
    + rewrite H; [|reflexivity]. vm_compute. reflexivity.
Defined.

(** * Further properties of the image extraction *)

Lemma find_in_sound (name : pystr) :
  forall n attrs, find_in name n = Some attrs -> tag_in name attrs n.
Proof.
  fix IH 1. intros [nm a children | s] attrs H; cbn [find_in] in H; [|discriminate].
  destruct (str_eqb nm name) eqn:E.
  - apply str_eqb_eq in E. subst nm. inversion H; subst. constructor.
  - assert (Hc : exists c, In c children /\ tag_in name attrs c).
    { clear E. induction children as [|c l IHl]; [discriminate|].
      destruct (find_in name c) as [t|] eqn:Fc.
      - inversion H; subst. exists c. split; [left; reflexivity|].
        apply IH. exact Fc.
      - destruct (IHl H) as [c' [Hin Ht]]. exists c'. split; [right|]; assumption. }
    destruct Hc as [c [Hin Ht]]. eapply tag_in_below; eassumption.
Qed.

Lemma find_sound (name : pystr) (soup : list Node) (attrs : list (pystr * pystr)) :
  find name soup = Some attrs -> exists n, In n soup /\ tag_in name attrs n.
Proof.
  induction soup as [|n soup IH]; cbn [find]; [discriminate|].
  destruct (find_in name n) as [t|] eqn:F.
  - intros E. inversion E; subst. exists n. split; [left; reflexivity|].
    apply find_in_sound. exact F.
  - intros E. destruct (IH E) as [n' [Hin Ht]]. exists n'. split; [right|]; assumption.
Qed.

Lemma find_in_complete (name : pystr) (n : Node) :
  has_tag name n -> find_in name n <> None.
Proof.
  induction 1 as [attrs children | nm attrs children c Hin Hc IH]; cbn [find_in].
  - assert (E : str_eqb name name = true) by (apply str_eqb_eq; reflexivity).
    rewrite E. discriminate.
  - destruct (str_eqb nm name); [discriminate|].
    induction children as [|c' l IHl]; [contradiction|].
    destruct Hin as [-> | Hin].
    + destruct (find_in name c); [discriminate | contradiction].
    + destruct (find_in name c'); [discriminate|]. apply IHl. exact Hin.
Qed.

Lemma find_complete (name : pystr) (soup : list Node) :
  find name soup = None -> forall n, In n soup -> ~ has_tag name n.
Proof.
  induction soup as [|m soup IH]; cbn [find]; intros E n Hin Ht; [contradiction|].
  destruct (find_in name m) as [t|] eqn:F; [discriminate|].
  destruct Hin as [-> | Hin].
  - exact (find_in_complete name n Ht F).
  - exact (IH E n Hin Ht).
Qed.

Lemma tag_getitem_sound (attrs : list (pystr * pystr)) (key v : pystr) :
  tag_getitem attrs key = Ok v -> In (key, v) attrs.
Proof.
  induction attrs as [|[k x] attrs IH]; cbn [tag_getitem]; [discriminate|].
  destruct (str_eqb k key) eqn:E.
  - apply str_eqb_eq in E. subst k. intros H. inversion H; subst. left. reflexivity.
  - intros H. right. apply IH. exact H.
Qed.

Section ImageFacts2.

Variable BeautifulSoup : pystr -> list Node.

(** X18. What [get_entry_img_url] returns comes from the body: a URL it
    returns is the [src] attribute of an [img] tag of the parsed, non-empty
    body; and it returns [None] exactly when the entry has no body, the
    body is the empty string, or the parsed body holds no [img] tag. *)
Theorem img_url_comes_from_body (e : FeedEntry) :
  (forall v, get_entry_img_url BeautifulSoup e = Ok (Some v) ->
     exists html attrs n,
       entry_html e = Some html /\ html <> []
       /\ In n (BeautifulSoup html) /\ tag_in (str "img") attrs n
       /\ In (str "src", v) attrs)
  /\ (get_entry_img_url BeautifulSoup e = Ok None <->
      entry_html e = None \/ entry_html e = Some []
      \/ exists html, entry_html e = Some html
           /\ forall n, In n (BeautifulSoup html) -> ~ has_tag (str "img") n).
Proof.
  assert (U : get_entry_img_url BeautifulSoup e
              = match entry_html e with
                | Some (c :: html) =>
                    match find (str "img") (BeautifulSoup (c :: html)) with
                    | Some img_tag =>
                        match tag_getitem img_tag (str "src") with
                        | Ok v => Ok (Some v)
                        | Raise x => Raise x
                        end
                    | None => Ok None
                    end
                | _ => Ok None
                end).
  { unfold get_entry_img_url, entry_html.
    destruct (content e) as [[|c html]|]; try reflexivity.
    destruct (description e) as [[|c html]|]; reflexivity. }
  rewrite U. clear U. split.
  - intros v H. destruct (entry_html e) as [[|c html]|]; try discriminate.
    destruct (find (str "img") (BeautifulSoup (c :: html))) as [img_tag|] eqn:F;
      [|discriminate].
    destruct (tag_getitem img_tag (str "src")) as [v'|x] eqn:G; [|discriminate].
    inversion H; subst v'.
    destruct (find_sound _ _ _ F) as [n [Hin Ht]].
    exists (c :: html), img_tag, n. repeat split; try assumption.
    + discriminate.
    + apply tag_getitem_sound. exact G.
  - destruct (entry_html e) as [[|c html]|].
    + split; [intros _; right; left; reflexivity | reflexivity].
    + destruct (find (str "img") (BeautifulSoup (c :: html))) as [img_tag|] eqn:F.
      * split.
        -- destruct (tag_getitem img_tag (str "src")); discriminate.
        -- intros [H | [H | [html' [H Hno]]]]; try discriminate.
           inversion H; subst html'. exfalso.
           destruct (find_sound _ _ _ F) as [n [Hin Ht]].
           apply (Hno n Hin). clear - Ht.
           induction Ht as [children | nm a children c Hin Hc IH].
           ++ constructor.
           ++ eapply has_tag_below; eassumption.
      * split; [|reflexivity]. intros _. right; right.
        exists (c :: html). split; [reflexivity|]. apply find_complete. exact F.
    + split; [intros _; left; reflexivity | reflexivity].
Qed.

(** X19. When the entry has a [content] field, the [description] is never
    read: two entries with the same content give the same answer, and an
    empty content gives [None] even when the description holds an
    image. *)
Theorem content_hides_description (e1 e2 : FeedEntry) (c : pystr) :
  content e1 = Some c -> content e2 = Some c ->
  get_entry_img_url BeautifulSoup e1 = get_entry_img_url BeautifulSoup e2
  /\ (c = [] -> get_entry_img_url BeautifulSoup e1 = Ok None).
Proof.
  intros H1 H2. unfold get_entry_img_url. rewrite H1, H2.
  split; [reflexivity|]. intros ->. reflexivity.
Qed.

End ImageFacts2.

Lemma img_url_comes_from_body_witness :
  exists html attrs n,
    entry_html entry_img = Some html /\ html <> []
    /\ In n (toy_soup html) /\ tag_in (str "img") attrs n
    /\ In (str "src", str "http://example.org/i.png") attrs.
Proof.
  apply (img_url_comes_from_body toy_soup entry_img).
  vm_compute. reflexivity.
Defined.

Lemma content_hides_description_witness :
  get_entry_img_url toy_soup entry_blank_content = Ok None.
Proof.
  apply (content_hides_description toy_soup entry_blank_content entry_blank_content []);
    reflexivity.
Defined.

(** * Further properties of the platform calls *)

Section PlatformFacts.

Variable faults : list Call -> Call -> option exn.
Variable BeautifulSoup : pystr -> list Node.

(** X17. When the image lookup raises (the first [img] tag has no [src]),
    a new entry is never published and yet it is recorded: no request is
    made, the timeline is as before, the handler prints the error, and the
    row is inserted, so the entry will not be tried again. *)
Theorem unpublishable_entry_recorded
    (users : list pystr) (e : FeedEntry) (h : pystr) (x : exn) (w : World) :
  get_entry_img_url BeautifulSoup e = Raise x ->
  rss_latest_sha256 e = Ok h -> ~ stored h w -> is_duplicate_update e w = false ->
  exists w',
    monitor_entry faults BeautifulSoup users e w = (Ok tt, w')
    /\ calls w' = calls w /\ timeline w' = timeline w
    /\ stdout w' = stdout w ++ [OutError x; OutEntryUpdated]
    /\ table w' = table w ++ [{| sha256_hash := h; date := get_latest_entry_date e;
                                 row_title := title e; url := link e |}].
Proof.
  intros Himg Hh Hs Hd.
  pose proof (monitor_entry_new faults BeautifulSoup users e h w Hh Hs Hd) as Hm.
  assert (T : try_body faults BeautifulSoup users e w = (Raise x, w)).
  { unfold try_body, tweet_latest_update. unfold bind at 1. unfold bind at 1.
    unfold lift. rewrite Himg. reflexivity. }
  rewrite T in Hm. cbn [fst snd] in Hm.
  eexists. split; [exact Hm|]. unfold concluded.
  cbn [calls timeline stdout table log_out set_table].
  repeat split. rewrite <- app_assoc. reflexivity.
Qed.

(** X26. For a new entry that is not a duplicate, the [try] body always
    raises: with the exception of the publish call or, when the entry was
    tweeted, with the [AttributeError] of [reset_msg]. So the handler
    prints the error for every such entry, the "New update posted" message
    of the [else] clause is never printed, and the entry is recorded. *)
Theorem new_entry_always_logged_as_error
    (users : list pystr) (e : FeedEntry) (h : pystr) (w : World) :
  rss_latest_sha256 e = Ok h -> ~ stored h w -> is_duplicate_update e w = false ->
  exists x w',
    try_body faults BeautifulSoup users e w
    = (Raise x, snd (tweet_latest_update faults BeautifulSoup e w))
    /\ monitor_entry faults BeautifulSoup users e w = (Ok tt, w')
    /\ stdout w'
       = stdout (snd (tweet_latest_update faults BeautifulSoup e w))
         ++ [OutError x; OutEntryUpdated]
    /\ calls w' = calls (snd (tweet_latest_update faults BeautifulSoup e w))
    /\ timeline w' = timeline (snd (tweet_latest_update faults BeautifulSoup e w))
    /\ table w' = table w ++ [{| sha256_hash := h; date := get_latest_entry_date e;
                                 row_title := title e; url := link e |}]
    /\ (fst (tweet_latest_update faults BeautifulSoup e w) = Ok tt ->
        x = AttributeError)
    /\ (forall y, fst (tweet_latest_update faults BeautifulSoup e w) = Raise y ->
        x = y).
Proof.
  intros Hh Hs Hd.
  pose proof (monitor_entry_new faults BeautifulSoup users e h w Hh Hs Hd) as Hm.
  pose proof (keeps_table_tweet_latest_update faults BeautifulSoup e w) as Hk.
  pose proof (try_body_raises faults BeautifulSoup users e w) as Ht.
  destruct (tweet_latest_update faults BeautifulSoup e w) as [[[]|y] w1];
    cbn [fst snd] in *; rewrite Ht in Hm; cbn [fst snd] in Hm;
    eexists; eexists; (split; [exact Ht|]); (split; [exact Hm|]);
    unfold concluded; cbn [stdout calls timeline table log_out set_table];
    rewrite Hk, <- app_assoc;
    repeat split; try reflexivity; try discriminate.
  intros y' E. inversion E. reflexivity.
Qed.

(** X20. [delete_last_tweet] reads the timeline and destroys its first
    tweet. On an empty timeline it raises [IndexError] after the read,
    without any destroy request. When both requests are accepted it
    returns, the requests are the read and the destruction of the latest
    tweet's id, and, no other tweet having that id, the timeline is left
    with exactly the older tweets. The history table is never touched. *)
Theorem delete_last_tweet_effect (w : World) :
  faults (calls w) (HomeTimeline 1) = None ->
  (timeline w = [] ->
   delete_last_tweet faults w = (Raise IndexError, log_call (HomeTimeline 1) w))
  /\ (forall last_tweet rest,
        timeline w = last_tweet :: rest ->
        faults (calls w ++ [HomeTimeline 1]) (Destroy (tweet_id last_tweet)) = None ->
        (forall t, In t rest -> tweet_id t <> tweet_id last_tweet) ->
        fst (delete_last_tweet faults w) = Ok tt
        /\ calls (snd (delete_last_tweet faults w))
           = calls w ++ [HomeTimeline 1; Destroy (tweet_id last_tweet)]
        /\ timeline (snd (delete_last_tweet faults w)) = rest
        /\ table (snd (delete_last_tweet faults w)) = table w).
Proof.
  intros F1. split.
  - intros Ht. unfold delete_last_tweet, bind, request. rewrite F1.
    cbn [timeline log_call]. rewrite Ht. reflexivity.
  - intros last_tweet rest Ht F2 Hids.
    unfold delete_last_tweet, statuses_destroy, bind, request. rewrite F1.
    cbn [timeline log_call calls]. rewrite Ht, F2.
    cbn [fst snd calls timeline table set_timeline log_call].
    rewrite Ht. cbn [filter]. rewrite Z.eqb_refl. cbn [negb].
    repeat split.
    + rewrite <- app_assoc. reflexivity.
    + clear Ht. induction rest as [|t rest IH]; [reflexivity|].
      cbn [filter].
      destruct (tweet_id t =? tweet_id last_tweet) eqn:E.
      * apply Z.eqb_eq in E. exfalso. exact (Hids t (or_introl eq_refl) E).
      * cbn [negb]. f_equal. apply IH. intros t' Hin. apply Hids. right. exact Hin.
Qed.

(** X21. Whatever the environment answers, the fan-out sends the text
    title, newline, link to an initial segment of the subscriber list, in
    order and once each, and to nobody else; it returns normally only if
    that segment is the whole list; it changes neither the history table
    nor the timeline. With the class as it is the segment is empty: no
    request is made at all. *)
Theorem fanout_reaches_a_prefix (users : list pystr) (e : FeedEntry) (w : World) :
  (exists k,
    (k <= length users)%nat
    /\ calls (snd (send_dm_to_feed_subscribed_users users e w))
       = calls w
         ++ map (fun u => SendDM u (title e ++ NL ++ link e)) (firstn k users)
    /\ (fst (send_dm_to_feed_subscribed_users users e w) = Ok tt ->
        k = length users)
    /\ table (snd (send_dm_to_feed_subscribed_users users e w)) = table w
    /\ timeline (snd (send_dm_to_feed_subscribed_users users e w)) = timeline w)
  /\ calls (snd (send_dm_to_feed_subscribed_users users e w)) = calls w.
Proof.
  destruct users as [|u users].
  - split; [|reflexivity]. exists 0%nat. cbn [firstn map fst snd length].
    repeat split; try reflexivity. rewrite app_nil_r. reflexivity.
  - rewrite send_dms_raise. split; [|reflexivity].
    exists 0%nat. cbn [firstn map fst snd length calls table timeline log_out].
    rewrite app_nil_r. repeat split; try reflexivity; [lia | discriminate].
Qed.

End PlatformFacts.

Lemma unpublishable_entry_recorded_witness :
  exists w',
    monitor_entry no_faults toy_soup [str "alice"] entry_no_src world_empty = (Ok tt, w')
    /\ calls w' = calls world_empty /\ timeline w' = timeline world_empty
    /\ stdout w' = stdout world_empty ++ [OutError KeyError; OutEntryUpdated].
Proof.
  destruct (unpublishable_entry_recorded no_faults toy_soup [str "alice"]
              entry_no_src (fingerprint entry_no_src) KeyError world_empty)
    as [w' [Hm [Hc [Ht [Ho _]]]]].
  - vm_compute. reflexivity.
  - vm_compute. reflexivity.
  - intros [r [[] _]].
  - vm_compute. reflexivity.
  - exists w'. repeat split; assumption.
Defined.

Lemma new_entry_always_logged_as_error_witness :
  exists w',
    monitor_entry no_faults toy_soup [str "alice"] entry_img world_empty = (Ok tt, w')
    /\ stdout w'
       = [ OutLength 32;
           OutText (str "New build" ++ NL ++ str "Nightly build 7 is out");
           OutError AttributeError; OutEntryUpdated ]
    /\ map tweet_id (timeline w') = [1].
Proof.
  destruct (new_entry_always_logged_as_error no_faults toy_soup [str "alice"]
              entry_img (fingerprint entry_img) world_empty)
    as [x [w' [_ [Hm [Ho [_ [Ht [_ [Hx _]]]]]]]]].
  - vm_compute. reflexivity.
  - intros [r [[] _]].
  - reflexivity.
  - exists w'. split; [exact Hm|]. rewrite Ho, Ht, Hx; [|vm_compute; reflexivity].
    vm_compute. split; reflexivity.
Defined.

Lemma delete_last_tweet_effect_witness :
  delete_last_tweet no_faults world_empty
  = (Raise IndexError, log_call (HomeTimeline 1) world_empty)
  /\ timeline (snd (delete_last_tweet no_faults world_after_a))
     = [ {| tweet_id := 1; status := str "Hello"; media := None |} ].
Proof.
  split.
  - apply (delete_last_tweet_effect no_faults world_empty); reflexivity.
  - destruct (delete_last_tweet_effect no_faults world_after_a eq_refl) as [_ H].
    apply (H {| tweet_id := 2;
                status := str "Release v1.2.0 now available" ++ NL
                          ++ str "http://example.org/r/120";
                media := None |}
             [ {| tweet_id := 1; status := str "Hello"; media := None |} ]).
    + reflexivity.
    + reflexivity.
    + intros t [<- | []]. discriminate.
Defined.

(** * Further properties of the truncation *)

(** X23. A title longer than the limit is cut to the limit less three
    characters and followed by three dots; the summary is left out; the
    message has exactly the length of the limit. *)
Theorem long_title_cut_to_limit (e : FeedEntry) (img : option pystr) :
  msg_limit e img < len (title e) ->
  compose (msg_limit e img) e
  = fields (Some (firstn (Z.to_nat (msg_limit e img - 3)) (title e) ++ ELLIPSIS))
      None None None
  /\ msg_length (compose (msg_limit e img) e) = msg_limit e img.
Proof.
  intros Hover. pose proof (msg_limit_range e img) as R.
  destruct (compose_title_cut (msg_limit e img) e ltac:(lia) Hover) as [C L].
  split; [|exact L]. rewrite C. reflexivity.
Qed.

Lemma long_title_cut_to_limit_witness :
  compose 116 entry_long_title
  = fields (Some (repeat 97 113 ++ str "...")) None None None
  /\ msg_length (compose 116 entry_long_title) = 116.
Proof.
  destruct (long_title_cut_to_limit entry_long_title None) as [C L].
  - vm_compute. reflexivity.
  - split; [|exact L].
    etransitivity; [exact C | vm_compute; reflexivity].
Defined.

(** X24. When the title leaves at least four characters of the limit and
    the summary does not fit, the summary is cut so that title, newline,
    cut summary and three dots have exactly the length of the limit. *)
Theorem long_summary_cut_to_limit (e : FeedEntry) (img : option pystr) (s : pystr) :
  summary e = Some s -> title e <> [] ->
  len (title e) + 4 <= msg_limit e img ->
  msg_limit e img < len (title e) + 1 + len s ->
  msg_text (compose (msg_limit e img) e)
  = title e ++ NL
    ++ firstn (Z.to_nat (msg_limit e img - len (title e) - 4)) s ++ ELLIPSIS
  /\ msg_length (compose (msg_limit e img) e) = msg_limit e img.
Proof.
  intros Hs Ht Hroom Hover.
  assert (Hn : s <> []).
  { intros ->. change (len []) with 0 in Hover. lia. }
  destruct (compose_summary_cut (msg_limit e img) e s Hs Ht Hn ltac:(lia) Hover)
    as [T L].
  split.
  - rewrite T. rewrite Z.max_l by lia. reflexivity.
  - rewrite L. lia.
Qed.

Lemma long_summary_cut_to_limit_witness :
  msg_text (compose 116 entry_long_summary)
  = str "New build" ++ NL ++ repeat 98 103 ++ str "..."
  /\ msg_length (compose 116 entry_long_summary) = 116.
Proof.
  destruct (long_summary_cut_to_limit entry_long_summary None (repeat 98 200))
    as [T L].
  - reflexivity.
  - discriminate.
  - vm_compute. discriminate.
  - vm_compute. reflexivity.
  - split; [|exact L].
    etransitivity; [exact T | vm_compute; reflexivity].
Defined.
